(** * benburkert/openpgp: private-key packets, v3 signatures and hash negotiation

    A shallow embedding of [packet/private_key.go], [packet/signature_v3.go]
    and [algorithm/hash.go].  Go byte slices are lists of [Byte.byte], Go's
    fixed-width integers are [Z] with the wrap-around written out, [big.Int]
    is [Z], and every method with a pointer receiver takes the receiver and
    returns the updated receiver next to what the Go method returns. *)

From Stdlib Require Import ZArith List Lia Bool String.
From Stdlib.Strings Require Import Byte.
From stdpp Require Import list.
Import ListNotations.

Local Open Scope Z_scope.

(** ** Bytes and fixed-width integers *)

Definition Z_of_byte (b : byte) : Z := Z.of_N (Byte.to_N b).

(** [byte(x)]: the conversion of an integer to [uint8] keeps the low 8 bits. *)
Definition byte_of_Z (z : Z) : byte :=
  match Byte.of_N (Z.to_N (z mod 256)) with
  | Some b => b
  | None => x00
  end.

Definition to_uint16 (z : Z) : Z := z mod 65536.
Definition to_uint32 (z : Z) : Z := z mod 4294967296.

Definition xor_byte (a b : byte) : byte :=
  byte_of_Z (Z.lxor (Z_of_byte a) (Z_of_byte b)).

(** ** Errors and outcomes

    [errors.StructuralError], [errors.UnsupportedError] and
    [errors.InvalidArgumentError] are the three string-based error types of
    the repository's [errors] package.  The remaining constructors are the
    error values that reach the callers from outside it: [io.ErrUnexpectedEOF]
    from short reads, a failed [Write], the errors of [crypto/rsa]'s
    [Validate], and whatever a collaborator parser reports. *)

Inductive rsa_error : Type :=
  | errPublicExponentSmall
  | errPublicExponentLarge
  | errInvalidPrime
  | errInvalidModulus
  | errInvalidExponents.

Inductive error : Type :=
  | StructuralError (msg : string)
  | UnsupportedError (msg : string)
  | InvalidArgumentError (msg : string)
  | ErrUnexpectedEOF
  | ErrWrite
  | ErrRSA (e : rsa_error)
  | ErrCollaborator (msg : string).

(** What a call does: it returns a value, returns a Go [error], panics, or
    never returns. *)
Inductive outcome (A : Type) : Type :=
  | Ok (a : A)
  | Err (e : error)
  | Panic (msg : string)
  | Diverges.
Arguments Ok {A} a.
Arguments Err {A} e.
Arguments Panic {A} msg.
Arguments Diverges {A}.

Definition bind {A B : Type} (m : outcome A) (k : A -> outcome B) : outcome B :=
  match m with
  | Ok a => k a
  | Err e => Err e
  | Panic s => Panic s
  | Diverges => Diverges
  end.

Notation "'let!' p ':=' m 'in' k" := (bind m (fun p => k))
  (at level 10, p pattern, m at level 100, k at level 200).

(** The [error] a Go method returns, for methods without another result. *)
Definition status := outcome unit.
Definition nil_error : status := Ok tt.

Definition is_StructuralError (e : error) : bool :=
  match e with StructuralError _ => true | _ => false end.

Definition is_UnsupportedError (e : error) : bool :=
  match e with UnsupportedError _ => true | _ => false end.

Definition is_InvalidArgumentError (e : error) : bool :=
  match e with InvalidArgumentError _ => true | _ => false end.

(** ** Readers and writers

    An [io.Reader] over an in-memory packet body is the list of bytes not yet
    consumed.  [readFull r buf] fills a buffer of [n] bytes or fails with
    [io.ErrUnexpectedEOF]. *)
Definition reader := list byte.

Definition readFull (r : reader) (n : nat) : outcome (list byte * reader) :=
  if (n <=? length r)%nat then Ok (take n r, drop n r) else Err ErrUnexpectedEOF.

(** An [io.Writer]: the bytes accepted so far and, for a writer that may
    fail, the room that is left ([None] for a [bytes.Buffer], which always
    accepts). *)
Record writer : Type := mkWriter {
  written : list byte;
  room : option nat
}.

Definition buffer : writer := mkWriter [] None.

Definition Write (w : writer) (p : list byte) : writer * status :=
  match room w with
  | None => (mkWriter (written w ++ p) None, nil_error)
  | Some k =>
      if (length p <=? k)%nat
      then (mkWriter (written w ++ p) (Some (k - length p)%nat), nil_error)
      else (w, Err ErrWrite)
  end.

(** ** [math/big]: the part of [big.Int] the packets use *)

(** [x.BitLen()]: the length of the absolute value in bits, 0 for 0. *)
Definition BitLen (x : Z) : Z :=
  if Z.abs x =? 0 then 0 else Z.log2 (Z.abs x) + 1.

(** The [k] low-order base-256 digits of [n], most significant first. *)
Fixpoint be_encode (k : nat) (n : Z) : list byte :=
  match k with
  | O => []
  | S k' => be_encode k' (n / 256) ++ [byte_of_Z (n mod 256)]
  end.

(** [x.Bytes()]: the absolute value as a big-endian byte slice without
    leading zeros. *)
Definition big_Bytes (x : Z) : list byte :=
  be_encode (Z.to_nat ((BitLen x + 7) / 8)) (Z.abs x).

(** [new(big.Int).SetBytes(buf)]: [buf] read as a big-endian unsigned integer. *)
Definition big_SetBytes (buf : list byte) : Z :=
  fold_left (fun acc b => acc * 256 + Z_of_byte b) buf 0.

(** Extended Euclid with the invariant [a = a0 * g + _ * n] and
    [b = b0 * g + _ * n]; used for [ModInverse]. *)
Fixpoint egcd (fuel : nat) (a b a0 b0 : Z) : Z * Z :=
  match fuel with
  | O => (a, a0)
  | S f => if b =? 0 then (a, a0)
           else egcd f b (a mod b) b0 (a0 - (a / b) * b0)
  end.

(** [new(big.Int).ModInverse(g, n)] of [math/big]: the inverse of [g] in the
    ring of integers modulo [n], in the range [0, |n|).  When [g] and [n] are
    not relatively prime there is no inverse and the call returns [nil],
    which is [None] here: a negative [n] is negated, [g] is reduced modulo
    [n], and the greatest common divisor that the extended Euclid ends with
    is compared with 1. *)
Definition ModInverse (g n : Z) : option Z :=
  let n := Z.abs n in
  let '(d, x) := egcd (S (Z.to_nat (2 * Z.log2 n + 2))) (g mod n) n 1 0 in
  if d =? 1 then Some (x mod n) else None.

(** ** [encoding.MPI]: the length-prefixed big-integer wire format *)

(** An [encoding.MPI] holds the decoded bytes and the bit length given on the
    wire.  A Go slice may be [nil], which [Serialize] of a signature asks
    about; [None] is the [nil] slice. *)
Record MPI : Type := mkMPI {
  mpi_bytes : option (list byte);
  bitLength : Z
}.

(** [new(encoding.MPI)]: the zero value. *)
Definition new_MPI : MPI := mkMPI None 0.

(** [m.Bytes()] as the bytes a consumer such as [SetBytes] sees. *)
Definition Bytes (m : MPI) : list byte :=
  match mpi_bytes m with Some l => l | None => [] end.

(** Modelled from the spec: the methods [SetBig], [WriteTo] and [ReadFrom]
    of [encoding.MPI], which live in the repository's [encoding] package.  The spec
    gives the format: a 2-byte bit-length prefix followed by ceil(bits/8)
    bytes, most significant byte first.  The prefix is a [uint16], so a bit
    length is kept modulo 2^16. *)
Definition SetBig (n : Z) : MPI :=
  mkMPI (Some (big_Bytes n)) (to_uint16 (BitLen n)).

Definition EncodedBytes (m : MPI) : list byte :=
  [byte_of_Z (Z.shiftr (bitLength m) 8); byte_of_Z (bitLength m)] ++ Bytes m.

(** Modelled from the spec: see [SetBig]. *)
Definition WriteTo (m : MPI) (w : writer) : writer * status :=
  let p := EncodedBytes m in Write w p.

(** Modelled from the spec: see [SetBig].  A short read is reported as
    [io.ErrUnexpectedEOF]. *)
Definition ReadFrom (r : reader) : outcome (MPI * reader) :=
  let! (hd, r1) := readFull r 2 in
  let bits := big_SetBytes hd in
  let! (body, r2) := readFull r1 (Z.to_nat ((bits + 7) / 8)) in
  Ok (mkMPI (Some body) bits, r2).

(** ** [crypto/sha1]

    SHA-1 as FIPS 180 defines it, on 32-bit words kept in [Z]. *)

Definition rotl32 (n x : Z) : Z :=
  to_uint32 (Z.lor (Z.shiftl x n) (Z.shiftr x (32 - n))).

Definition sha1_pad (msg : list byte) : list byte :=
  let len := Z.of_nat (length msg) in
  msg ++ [x80] ++ repeat x00 (Z.to_nat ((55 - len) mod 64)) ++ be_encode 8 (8 * len).

Fixpoint words_of (n : nat) (l : list byte) : list Z :=
  match n with
  | O => []
  | S n' => big_SetBytes (take 4 l) :: words_of n' (drop 4 l)
  end.

(** The message schedule, built backwards: the head of [rev_w] is the word
    computed last. *)
Fixpoint sha1_schedule (n : nat) (rev_w : list Z) : list Z :=
  match n with
  | O => rev rev_w
  | S n' =>
      let w := rotl32 1 (Z.lxor (Z.lxor (nth 2 rev_w 0) (nth 7 rev_w 0))
                                (Z.lxor (nth 13 rev_w 0) (nth 15 rev_w 0))) in
      sha1_schedule n' (w :: rev_w)
  end.

Definition sha1_state : Type := Z * Z * Z * Z * Z.

Definition sha1_round (s : sha1_state) (iw : nat * Z) : sha1_state :=
  let '(a, b, c, d, e) := s in
  let '(i, w) := iw in
  let '(f, k) :=
    if (i <? 20)%nat then (Z.lor (Z.land b c) (Z.land (Z.lxor b 4294967295) d), 1518500249)
    else if (i <? 40)%nat then (Z.lxor (Z.lxor b c) d, 1859775393)
    else if (i <? 60)%nat then (Z.lor (Z.lor (Z.land b c) (Z.land b d)) (Z.land c d), 2400959708)
    else (Z.lxor (Z.lxor b c) d, 3395469782) in
  (to_uint32 (rotl32 5 a + f + e + k + w), a, rotl32 30 b, c, d).

Definition sha1_block (h : sha1_state) (blk : list byte) : sha1_state :=
  let w := sha1_schedule 64 (rev (words_of 16 blk)) in
  let '(a, b, c, d, e) := fold_left sha1_round (combine (seq 0 80) w) h in
  let '(h0, h1, h2, h3, h4) := h in
  (to_uint32 (h0 + a), to_uint32 (h1 + b), to_uint32 (h2 + c),
   to_uint32 (h3 + d), to_uint32 (h4 + e)).

Fixpoint sha1_blocks (n : nat) (h : sha1_state) (l : list byte) : sha1_state :=
  match n with
  | O => h
  | S n' => sha1_blocks n' (sha1_block h (take 64 l)) (drop 64 l)
  end.

(** [h := sha1.New(); h.Write(msg); h.Sum(nil)]: the 20-byte digest. *)
Definition sha1_Sum (msg : list byte) : list byte :=
  let padded := sha1_pad msg in
  let '(h0, h1, h2, h3, h4) :=
    sha1_blocks (length padded / 64)%nat
      (1732584193, 4023233417, 2562383102, 271733878, 3285377520) padded in
  be_encode 4 h0 ++ be_encode 4 h1 ++ be_encode 4 h2 ++ be_encode 4 h3 ++ be_encode 4 h4.

(** [sha1.Size] *)
Definition sha1_Size : nat := 20.

(** ** [crypto/cipher]: block ciphers and CFB decryption *)

(** A [cipher.Block]: its block size and its [Encrypt] (CFB uses the
    encryption direction only). *)
Record Block : Type := mkBlock {
  Block_BlockSize : nat;
  Encrypt : list byte -> list byte
}.

(** An [algorithm.Cipher]: a registry entry for a symmetric cipher. *)
Record Cipher : Type := mkCipher {
  Cipher_Id : byte;
  KeySize : nat;
  BlockSize : nat;
  New : list byte -> Block
}.

(** [xorBytes(dst, a, b)]: as many bytes as the shorter operand has. *)
Definition xorBytes (a b : list byte) : list byte := zip_with xor_byte a b.

(** The loop of [XORKeyStream] of a CFB decrypter that has not been used
    before, as [Decrypt] calls it: [next] holds the IV and then the previous
    ciphertext block, [out] is a buffer of one block that [Encrypt] fills.
    Every turn consumes [min (len src) blockSize] bytes, so a zero block size
    never finishes a non-empty [src]; [fuel] bounds the turns. *)
Fixpoint XORKeyStream (fuel : nat) (b : Block) (next src : list byte)
  : option (list byte) :=
  match src with
  | [] => Some []
  | _ :: _ =>
      match fuel with
      | O => None
      | S fuel' =>
          let bs := Block_BlockSize b in
          let out := resize bs x00 (Encrypt b next) in
          let n := Nat.min (length src) bs in
          let next' := take n src ++ drop n next in
          match XORKeyStream fuel' b next' (drop n src) with
          | Some rest => Some (xorBytes (take n src) out ++ rest)
          | None => None
          end
      end
  end.

(** [cfb := cipher.NewCFBDecrypter(block, iv); cfb.XORKeyStream(data, src)] *)
Definition CFBDecrypt (b : Block) (iv src : list byte) : outcome (list byte) :=
  if negb (length iv =? Block_BlockSize b)%nat
  then Panic "cipher.NewCFBDecrypter: IV length must equal block size"
  else match XORKeyStream (length src) b (resize (Block_BlockSize b) x00 iv) src with
       | Some data => Ok data
       | None => Diverges
       end.

(** ** Key material: [crypto/rsa], [crypto/dsa], [elgamal], [crypto/ecdsa] *)

Record rsa_PublicKey : Type := mk_rsa_PublicKey { rsa_N : Z; rsa_E : Z }.

(** [Qinv] is a [*big.Int] that [Precompute] sets to what [ModInverse]
    returns, which may be [nil]: [None]. *)
Record PrecomputedValues : Type := mkPrecomputed { Dp : Z; Dq : Z; Qinv : option Z }.

(** [Precomputed] is [None] while the [*big.Int] fields of
    [rsa.PrecomputedValues] are [nil], that is until [Precompute] has run. *)
Record rsa_PrivateKey : Type := mk_rsa_PrivateKey {
  rsa_PublicKey_of : rsa_PublicKey;
  rsa_D : Z;
  Primes : list Z;
  Precomputed : option PrecomputedValues
}.

Record dsa_PublicKey : Type := mk_dsa_PublicKey { dsa_P : Z; dsa_Q : Z; dsa_G : Z; dsa_Y : Z }.
Record dsa_PrivateKey : Type := mk_dsa_PrivateKey { dsa_PublicKey_of : dsa_PublicKey; dsa_X : Z }.

Record elgamal_PublicKey : Type := mk_elgamal_PublicKey { elgamal_G : Z; elgamal_P : Z; elgamal_Y : Z }.
Record elgamal_PrivateKey : Type :=
  mk_elgamal_PrivateKey { elgamal_PublicKey_of : elgamal_PublicKey; elgamal_X : Z }.

Record ecdsa_PublicKey : Type := mk_ecdsa_PublicKey { ecdsa_Curve : string; ecdsa_X : Z; ecdsa_Y : Z }.
Record ecdsa_PrivateKey : Type :=
  mk_ecdsa_PrivateKey { ecdsa_PublicKey_of : ecdsa_PublicKey; ecdsa_D : Z }.

(** [z.Mod(x, y)] of [math/big]: Euclidean modulus, a panic for [y = 0]. *)
Definition big_Mod (x y : Z) : outcome Z :=
  if y =? 0 then Panic "division by zero" else Ok (x mod Z.abs y).

(** Modelled from the spec: [Validate] of [rsa.PrivateKey] in Go's [crypto/rsa],
    which the repository calls and does not contain.  The spec asks for the
    modulus to equal the product of the primes, for a well-formed exponent,
    and for a prime equal to 1 to be rejected; the order of the checks is
    that of the library: the public exponent, then every prime and the
    product, then [d*e = 1] modulo [p-1] for every prime [p]. *)
Definition checkPub (pub : rsa_PublicKey) : status :=
  if rsa_E pub <? 2 then Err (ErrRSA errPublicExponentSmall)
  else if rsa_E pub >? 2147483647 then Err (ErrRSA errPublicExponentLarge)
  else nil_error.

Fixpoint multiply_primes (primes : list Z) (modulus : Z) : outcome Z :=
  match primes with
  | [] => Ok modulus
  | prime :: rest =>
      if prime <=? 1 then Err (ErrRSA errInvalidPrime)
      else multiply_primes rest (modulus * prime)
  end.

Fixpoint check_exponents (de : Z) (primes : list Z) : status :=
  match primes with
  | [] => nil_error
  | prime :: rest =>
      let! congruence := big_Mod de (prime - 1) in
      if congruence =? 1 then check_exponents de rest
      else Err (ErrRSA errInvalidExponents)
  end.

(** Modelled from the spec: see [checkPub]. *)
Definition Validate (priv : rsa_PrivateKey) : status :=
  let! _ := checkPub (rsa_PublicKey_of priv) in
  let! modulus := multiply_primes (Primes priv) 1 in
  if negb (modulus =? rsa_N (rsa_PublicKey_of priv)) then Err (ErrRSA errInvalidModulus)
  else check_exponents (rsa_E (rsa_PublicKey_of priv) * rsa_D priv) (Primes priv).

(** Modelled from the spec: [Precompute] of [rsa.PrivateKey] in Go's
    [crypto/rsa], which reconstructs the CRT values of a key, among them the
    CRT coefficient [Qinv], the inverse of the second prime modulo the first
    ([nil] when [ModInverse] finds none).  A key that has them is left alone.  The values for a third and further
    prime are left out: the packet format has two primes. *)
Definition Precompute (priv : rsa_PrivateKey) : outcome rsa_PrivateKey :=
  match Precomputed priv with
  | Some _ => Ok priv
  | None =>
      match Primes priv with
      | p :: q :: _ =>
          let! dp := big_Mod (rsa_D priv) (p - 1) in
          let! dq := big_Mod (rsa_D priv) (q - 1) in
          Ok (mk_rsa_PrivateKey (rsa_PublicKey_of priv) (rsa_D priv) (Primes priv)
                (Some (mkPrecomputed dp dq (ModInverse q p))))
      | _ => Panic "index out of range"
      end
  end.

(** ** A method with a pointer receiver: state passing with outcomes

    [M S A] is a Go method on a receiver of type [S] that returns an [A] (or
    an error, or panics): it takes the receiver and gives back the receiver
    as the call leaves it, which matters on the error paths too. *)

Definition M (S A : Type) : Type := S -> S * outcome A.

Definition ret {S A : Type} (a : A) : M S A := fun s => (s, Ok a).

Definition lift {S A : Type} (o : outcome A) : M S A := fun s => (s, o).

Definition throw {S A : Type} (e : error) : M S A := lift (Err e).

Definition panic {S A : Type} (msg : string) : M S A := lift (Panic msg).

Definition get {S : Type} : M S S := fun s => (s, Ok s).

Definition modify {S : Type} (f : S -> S) : M S unit := fun s => (f s, Ok tt).

Definition mbindM {S A B : Type} (m : M S A) (k : A -> M S B) : M S B :=
  fun s =>
    match m s with
    | (s', Ok a) => k a s'
    | (s', Err e) => (s', Err e)
    | (s', Panic msg) => (s', Panic msg)
    | (s', Diverges) => (s', Diverges)
    end.

Notation "'let*' p ':=' m 'in' k" := (mbindM m (fun p => k))
  (at level 10, p pattern, m at level 100, k at level 200).

(** Proof steps for code in [M]: unfold the plumbing, and split on the
    scrutinee of a [match]. *)
Ltac unfold_M :=
  unfold mbindM, get, ret, throw, panic, lift, modify in *.

Ltac break_match :=
  match goal with
  | |- context [match ?x with _ => _ end] => destruct x eqn:?
  end.


(** [strconv.Itoa] for the non-negative integers the error messages print. *)
Definition digit (d : Z) : string :=
  String (Ascii.ascii_of_N (48 + Z.to_N d)) EmptyString.

Fixpoint Itoa_digits (fuel : nat) (n : Z) : string :=
  match fuel with
  | O => EmptyString
  | S fuel' =>
      if n <? 10 then digit n
      else String.append (Itoa_digits fuel' (n / 10)) (digit (n mod 10))
  end.

Definition Itoa (n : Z) : string := Itoa_digits (S (Z.to_nat (Z.log2 n))) n.

(** [bytes.Equal] *)
Fixpoint bytes_Equal (a b : list byte) : bool :=
  match a, b with
  | [], [] => true
  | x :: a', y :: b' => Byte.eqb x y && bytes_Equal a' b'
  | _, _ => false
  end.

(** ** [packet.PublicKey] and [packet.PrivateKey] *)

(** The public-key algorithms of RFC 4880, section 9.1, that the packets
    dispatch on; [PubKeyAlgoOther] is any further identifier. *)
Inductive PublicKeyAlgorithm : Type :=
  | PubKeyAlgoRSA
  | PubKeyAlgoRSAEncryptOnly
  | PubKeyAlgoRSASignOnly
  | PubKeyAlgoElGamal
  | PubKeyAlgoDSA
  | PubKeyAlgoECDH
  | PubKeyAlgoECDSA
  | PubKeyAlgoOther (id : byte).

Definition PublicKeyAlgorithm_Id (a : PublicKeyAlgorithm) : byte :=
  match a with
  | PubKeyAlgoRSA => x01
  | PubKeyAlgoRSAEncryptOnly => x02
  | PubKeyAlgoRSASignOnly => x03
  | PubKeyAlgoElGamal => x10
  | PubKeyAlgoDSA => x11
  | PubKeyAlgoECDH => x12
  | PubKeyAlgoECDSA => x13
  | PubKeyAlgoOther id => id
  end.

(** The [interface{}] field [PublicKey.PublicKey]: which library key it
    holds, [NoPublicKey] for [nil]. *)
Inductive crypto_PublicKey : Type :=
  | NoPublicKey
  | RSAPublicKey (k : rsa_PublicKey)
  | DSAPublicKey (k : dsa_PublicKey)
  | ElGamalPublicKey (k : elgamal_PublicKey)
  | ECDSAPublicKey (k : ecdsa_PublicKey).

(** The [interface{}] field [PrivateKey.PrivateKey]. *)
Inductive crypto_PrivateKey : Type :=
  | NoPrivateKey
  | RSAPrivateKey (k : rsa_PrivateKey)
  | DSAPrivateKey (k : dsa_PrivateKey)
  | ElGamalPrivateKey (k : elgamal_PrivateKey)
  | ECDSAPrivateKey (k : ecdsa_PrivateKey).

(** The fields of [packet.PublicKey] that the private-key packet reads. *)
Record PublicKey : Type := mkPublicKey {
  CreationTime : Z;
  PubKeyAlgo : PublicKeyAlgorithm;
  PublicKey_key : crypto_PublicKey;
  IsSubkey : bool
}.

(** The passphrase-stretching function [s2k func(out, in []byte)]: given the
    length of [out] and the passphrase, the bytes it puts into [out]. *)
Definition s2k_func : Type := nat -> list byte -> list byte.

Record PrivateKey : Type := mkPrivateKey {
  PublicKey_of : PublicKey;
  Encrypted : bool;
  encryptedData : list byte;
  cipher : option Cipher;
  s2k : option s2k_func;
  PrivateKey_key : crypto_PrivateKey;
  sha1Checksum : bool;
  iv : list byte
}.

(** [new(PrivateKey)], as the packet reader allocates it before [parse]; a
    subkey packet has [IsSubkey] set. *)
Definition new_PrivateKey (subkey : bool) : PrivateKey :=
  mkPrivateKey (mkPublicKey 0 (PubKeyAlgoOther x00) NoPublicKey subkey)
    false [] None None NoPrivateKey false [].

Definition set_PublicKey (p : PublicKey) (pk : PrivateKey) : PrivateKey :=
  mkPrivateKey p (Encrypted pk) (encryptedData pk) (cipher pk) (s2k pk)
    (PrivateKey_key pk) (sha1Checksum pk) (iv pk).
Definition set_Encrypted (b : bool) (pk : PrivateKey) : PrivateKey :=
  mkPrivateKey (PublicKey_of pk) b (encryptedData pk) (cipher pk) (s2k pk)
    (PrivateKey_key pk) (sha1Checksum pk) (iv pk).
Definition set_encryptedData (d : list byte) (pk : PrivateKey) : PrivateKey :=
  mkPrivateKey (PublicKey_of pk) (Encrypted pk) d (cipher pk) (s2k pk)
    (PrivateKey_key pk) (sha1Checksum pk) (iv pk).
Definition set_cipher (c : option Cipher) (pk : PrivateKey) : PrivateKey :=
  mkPrivateKey (PublicKey_of pk) (Encrypted pk) (encryptedData pk) c (s2k pk)
    (PrivateKey_key pk) (sha1Checksum pk) (iv pk).
Definition set_s2k (f : option s2k_func) (pk : PrivateKey) : PrivateKey :=
  mkPrivateKey (PublicKey_of pk) (Encrypted pk) (encryptedData pk) (cipher pk) f
    (PrivateKey_key pk) (sha1Checksum pk) (iv pk).
Definition set_PrivateKey_key (k : crypto_PrivateKey) (pk : PrivateKey) : PrivateKey :=
  mkPrivateKey (PublicKey_of pk) (Encrypted pk) (encryptedData pk) (cipher pk) (s2k pk)
    k (sha1Checksum pk) (iv pk).
Definition set_sha1Checksum (b : bool) (pk : PrivateKey) : PrivateKey :=
  mkPrivateKey (PublicKey_of pk) (Encrypted pk) (encryptedData pk) (cipher pk) (s2k pk)
    (PrivateKey_key pk) b (iv pk).
Definition set_iv (v : list byte) (pk : PrivateKey) : PrivateKey :=
  mkPrivateKey (PublicKey_of pk) (Encrypted pk) (encryptedData pk) (cipher pk) (s2k pk)
    (PrivateKey_key pk) (sha1Checksum pk) v.

(** The three assignments that end every key-material parse:
    [pk.PrivateKey = k; pk.Encrypted = false; pk.encryptedData = nil]. *)
Definition install_key (k : crypto_PrivateKey) (pk : PrivateKey) : PrivateKey :=
  set_encryptedData [] (set_Encrypted false (set_PrivateKey_key k pk)).

(** *** Key-material parse *)

Definition parseRSAPrivateKey (data : list byte) : M PrivateKey unit :=
  let* pk := get in
  match PublicKey_key (PublicKey_of pk) with
  | RSAPublicKey rsaPub =>
      let* (d, buf) := lift (ReadFrom data) in
      let* (p, buf) := lift (ReadFrom buf) in
      let* (q, buf) := lift (ReadFrom buf) in
      let rsaPriv :=
        mk_rsa_PrivateKey rsaPub (big_SetBytes (Bytes d))
          [big_SetBytes (Bytes p); big_SetBytes (Bytes q)] None in
      let* _ := lift (Validate rsaPriv) in
      let* rsaPriv := lift (Precompute rsaPriv) in
      modify (install_key (RSAPrivateKey rsaPriv))
  | _ => panic "interface conversion: interface {} is not *rsa.PublicKey"
  end.

Definition parseDSAPrivateKey (data : list byte) : M PrivateKey unit :=
  let* pk := get in
  match PublicKey_key (PublicKey_of pk) with
  | DSAPublicKey dsaPub =>
      let* (x, buf) := lift (ReadFrom data) in
      let dsaPriv := mk_dsa_PrivateKey dsaPub (big_SetBytes (Bytes x)) in
      modify (install_key (DSAPrivateKey dsaPriv))
  | _ => panic "interface conversion: interface {} is not *dsa.PublicKey"
  end.

Definition parseElGamalPrivateKey (data : list byte) : M PrivateKey unit :=
  let* pk := get in
  match PublicKey_key (PublicKey_of pk) with
  | ElGamalPublicKey pub =>
      let* (x, buf) := lift (ReadFrom data) in
      let priv := mk_elgamal_PrivateKey pub (big_SetBytes (Bytes x)) in
      modify (install_key (ElGamalPrivateKey priv))
  | _ => panic "interface conversion: interface {} is not *elgamal.PublicKey"
  end.

Definition parseECDSAPrivateKey (data : list byte) : M PrivateKey unit :=
  let* pk := get in
  match PublicKey_key (PublicKey_of pk) with
  | ECDSAPublicKey ecdsaPub =>
      let* (d, buf) := lift (ReadFrom data) in
      let ecdsaPriv := mk_ecdsa_PrivateKey ecdsaPub (big_SetBytes (Bytes d)) in
      modify (install_key (ECDSAPrivateKey ecdsaPriv))
  | _ => panic "interface conversion: interface {} is not *ecdsa.PublicKey"
  end.

Definition parsePrivateKey (data : list byte) : M PrivateKey unit :=
  let* pk := get in
  match PubKeyAlgo (PublicKey_of pk) with
  | PubKeyAlgoRSA | PubKeyAlgoRSASignOnly | PubKeyAlgoRSAEncryptOnly =>
      parseRSAPrivateKey data
  | PubKeyAlgoDSA => parseDSAPrivateKey data
  | PubKeyAlgoElGamal => parseElGamalPrivateKey data
  | PubKeyAlgoECDSA => parseECDSAPrivateKey data
  | _ => panic "impossible"
  end.

(** *** Decrypt *)

(** Lines 230 to 236 of [Decrypt]: the key is stretched from the passphrase
    into a buffer of [KeySize] bytes and the blob is decrypted in CFB mode.
    A nil [cipher] or [s2k] is a nil dereference. *)
Definition decryptedData (pk : PrivateKey) (passphrase : list byte) : outcome (list byte) :=
  match cipher pk with
  | None => Panic "invalid memory address or nil pointer dereference"
  | Some c =>
      match s2k pk with
      | None => Panic "invalid memory address or nil pointer dereference"
      | Some f =>
          let key := resize (KeySize c) x00 (f (KeySize c) passphrase) in
          let block := New c key in
          CFBDecrypt block (iv pk) (encryptedData pk)
      end
  end.

(** The loop [for i := 0; i < len(data)-2; i++ { sum += uint16(data[i]) }]
    run over the bytes it visits. *)
Definition additive_sum (visited : list byte) : Z :=
  fold_left (fun sum b => to_uint16 (sum + Z_of_byte b)) visited 0.

Definition Decrypt (passphrase : list byte) : M PrivateKey unit :=
  let* pk := get in
  if negb (Encrypted pk) then ret tt
  else
    let* data := lift (decryptedData pk passphrase) in
    let* data :=
      if sha1Checksum pk then
        if (length data <? sha1_Size)%nat
        then throw (StructuralError "truncated private key data")
        else
          let sum := sha1_Sum (take (length data - sha1_Size) data) in
          if negb (bytes_Equal sum (drop (length data - sha1_Size) data))
          then throw (StructuralError "private key checksum failure")
          else ret (take (length data - sha1_Size) data)
      else
        if (length data <? 2)%nat
        then throw (StructuralError "truncated private key data")
        else
          let sum := additive_sum (take (length data - 2) data) in
          if negb (Byte.eqb (nth (length data - 2) data x00) (byte_of_Z (Z.shiftr sum 8)))
             || negb (Byte.eqb (nth (length data - 1) data x00) (byte_of_Z sum))
          then throw (StructuralError "private key checksum failure")
          else ret (take (length data - 2) data) in
    parsePrivateKey data.

(** *** Collaborators

    The code outside the four files: the parser and serializer of the
    public-key portion, the cipher registry [algorithm.CipherById], the S2K
    parser and the packet header.  [serializeWithoutHeaders] gives the bytes
    it writes into the [bytes.Buffer] it is handed, or its error;
    [s2k_Parse] gives the function it returns (assigned to [pk.s2k] whatever
    the error is) and the rest of the reader; [header] is the bytes
    [serializeHeader] writes for a packet type and a body length. *)

Inductive packetType : Type :=
  | packetTypePrivateKey
  | packetTypePrivateSubkey.

Record Collaborators : Type := mkCollaborators {
  PublicKey_parse : reader -> M PublicKey reader;
  serializeWithoutHeaders : PublicKey -> outcome (list byte);
  CipherById : byte -> option Cipher;
  s2k_Parse : reader -> option s2k_func * outcome reader;
  header : packetType -> nat -> list byte
}.

Definition serializeHeader (X : Collaborators) (ptype : packetType) (len : nat)
  : M writer unit :=
  fun w => let p := header X ptype len in Write w p.

(** *** parse *)

Definition PrivateKey_parse (X : Collaborators) (r : reader) : M PrivateKey unit :=
  let* r := (fun pk =>
               let '(pub, res) := PublicKey_parse X r (PublicKey_of pk) in
               (set_PublicKey pub pk, res)) in
  let* (buf, r) := lift (readFull r 1) in
  let s2kType := Z_of_byte (nth 0 buf x00) in
  let* r :=
    if s2kType =? 0 then
      let* _ := modify (set_s2k None) in
      let* _ := modify (set_Encrypted false) in
      ret r
    else if (s2kType =? 254) || (s2kType =? 255) then
      let* (buf, r) := lift (readFull r 1) in
      let id := nth 0 buf x00 in
      let* _ := modify (set_cipher (CipherById X id)) in
      match CipherById X id with
      | None => throw (UnsupportedError (String.append "unknown cipher: " (Itoa (Z_of_byte id))))
      | Some _ =>
          let* _ := modify (set_Encrypted true) in
          let* _ := modify (set_s2k (fst (s2k_Parse X r))) in
          let* r := lift (snd (s2k_Parse X r)) in
          let* _ := if s2kType =? 254 then modify (set_sha1Checksum true) else ret tt in
          ret r
      end
    else throw (UnsupportedError "deprecated s2k function in private key") in
  let* pk := get in
  let* r :=
    if Encrypted pk then
      match cipher pk with
      | None => panic "invalid memory address or nil pointer dereference"
      | Some c =>
          let blockSize := BlockSize c in
          if (blockSize =? 0)%nat
          then throw (UnsupportedError
                        (String.append "unsupported cipher in private key: "
                           (Itoa (Z_of_byte (Cipher_Id c)))))
          else
            let* _ := modify (set_iv (resize blockSize x00 r)) in
            let* (_, r) := lift (readFull r blockSize) in
            ret r
      end
    else ret r in
  let* _ := modify (set_encryptedData r) in
  let* pk := get in
  if negb (Encrypted pk) then parsePrivateKey (encryptedData pk) else ret tt.

(** *** Serialize *)

Definition mod64kHash (d : list byte) : Z :=
  fold_left (fun h b => to_uint16 (h + Z_of_byte b)) d 0.

(** [priv.Primes[i]]: indexing a slice panics out of range. *)
Definition index_Primes (priv : rsa_PrivateKey) (i : nat) : outcome Z :=
  match Primes priv !! i with
  | Some p => Ok p
  | None => Panic "index out of range"
  end.

(** [priv.Precomputed.Qinv] handed to [SetBig]: a nil [*big.Int] is a nil
    dereference there. *)
Definition get_Qinv (priv : rsa_PrivateKey) : outcome Z :=
  match Precomputed priv with
  | Some v =>
      match Qinv v with
      | Some qinv => Ok qinv
      | None => Panic "invalid memory address or nil pointer dereference"
      end
  | None => Panic "invalid memory address or nil pointer dereference"
  end.

Definition serializeRSAPrivateKey (priv : rsa_PrivateKey) : M writer unit :=
  let* _ := WriteTo (SetBig (rsa_D priv)) in
  let* p1 := lift (index_Primes priv 1) in
  let* _ := WriteTo (SetBig p1) in
  let* p0 := lift (index_Primes priv 0) in
  let* _ := WriteTo (SetBig p0) in
  let* qinv := lift (get_Qinv priv) in
  WriteTo (SetBig qinv).

Definition serializeDSAPrivateKey (priv : dsa_PrivateKey) : M writer unit :=
  WriteTo (SetBig (dsa_X priv)).

Definition serializeElGamalPrivateKey (priv : elgamal_PrivateKey) : M writer unit :=
  WriteTo (SetBig (elgamal_X priv)).

Definition serializeECDSAPrivateKey (priv : ecdsa_PrivateKey) : M writer unit :=
  WriteTo (SetBig (ecdsa_D priv)).

Definition PrivateKey_Serialize (X : Collaborators) (pk : PrivateKey) : M writer unit :=
  fun w =>
    match serializeWithoutHeaders X (PublicKey_of pk) with
    | Ok public =>
        let contents := public ++ [x00] in
        let '(privateKeyBuf, err) :=
          match PrivateKey_key pk with
          | RSAPrivateKey priv => serializeRSAPrivateKey priv buffer
          | DSAPrivateKey priv => serializeDSAPrivateKey priv buffer
          | ElGamalPrivateKey priv => serializeElGamalPrivateKey priv buffer
          | ECDSAPrivateKey priv => serializeECDSAPrivateKey priv buffer
          | NoPrivateKey => (buffer, Err (InvalidArgumentError "unknown private key type"))
          end in
        match err with
        | Ok _ =>
            let ptype := if IsSubkey (PublicKey_of pk)
                         then packetTypePrivateSubkey else packetTypePrivateKey in
            let privateKeyBytes := written privateKeyBuf in
            (let* _ := serializeHeader X ptype
                         (length contents + length privateKeyBytes + 2) in
             let* _ := (fun w => Write w contents) in
             let* _ := (fun w => Write w privateKeyBytes) in
             let checksum := mod64kHash privateKeyBytes in
             fun w => Write w [byte_of_Z (Z.shiftr checksum 8); byte_of_Z checksum]) w
        | Err e => (w, Err e)
        | Panic msg => (w, Panic msg)
        | Diverges => (w, Diverges)
        end
    | Err e => (w, Err e)
    | Panic msg => (w, Panic msg)
    | Diverges => (w, Diverges)
    end.

(** ** [packet.SignatureV3] *)

(** An [algorithm.CryptoHash]: the OpenPGP identifier next to Go's
    [crypto.Hash] number. *)
Record CryptoHash : Type := mkCryptoHash {
  CryptoHash_id : byte;
  crypto_Hash : Z
}.

(** An [encoding.Field] is an interface value: [None] is the nil interface,
    [Some m] holds a [*encoding.MPI].  A method call on the nil interface
    panics. *)
Definition Field : Type := option MPI.

Definition Field_Bytes (f : Field) : outcome (option (list byte)) :=
  match f with
  | Some m => Ok (mpi_bytes m)
  | None => Panic "invalid memory address or nil pointer dereference"
  end.

Definition Field_WriteTo (f : Field) : M writer unit :=
  match f with
  | Some m => WriteTo m
  | None => panic "invalid memory address or nil pointer dereference"
  end.

(** [CreationTime] is the [time.Time] as Unix seconds; [sig_PubKeyAlgo] is an
    [algorithm.PublicKey], [None] while unset. *)
Record SignatureV3 : Type := mkSignatureV3 {
  SigType : byte;
  sig_CreationTime : Z;
  IssuerKeyId : Z;
  sig_PubKeyAlgo : option PublicKeyAlgorithm;
  sig_Hash : CryptoHash;
  HashTag : byte * byte;
  RSASignature : Field;
  DSASigR : Field;
  DSASigS : Field
}.

Definition is_nil {A : Type} (s : option (list A)) : bool :=
  match s with None => true | Some _ => false end.

Definition SignatureV3_Serialize (sig : SignatureV3) : M writer unit :=
  let* _ := (fun w => Write w (SigType sig :: be_encode 4 (to_uint32 (sig_CreationTime sig)))) in
  let* _ := (fun w => Write w (be_encode 8 (IssuerKeyId sig))) in
  let* algo :=
    match sig_PubKeyAlgo sig with
    | Some a => ret a
    | None => panic "invalid memory address or nil pointer dereference"
    end in
  let* _ := (fun w => Write w [PublicKeyAlgorithm_Id algo; CryptoHash_id (sig_Hash sig);
                                fst (HashTag sig); snd (HashTag sig)]) in
  let* rsaBytes := lift (Field_Bytes (RSASignature sig)) in
  let* unsigned :=
    if is_nil rsaBytes
    then let* dsaBytes := lift (Field_Bytes (DSASigR sig)) in ret (is_nil dsaBytes)
    else ret false in
  if unsigned : bool
  then throw (InvalidArgumentError
                "Signature: need to call Sign, SignUserId or SignKey before Serialize")
  else
    match algo with
    | PubKeyAlgoRSA | PubKeyAlgoRSASignOnly => Field_WriteTo (RSASignature sig)
    | PubKeyAlgoDSA =>
        let* _ := Field_WriteTo (DSASigR sig) in
        Field_WriteTo (DSASigS sig)
    | _ => panic "impossible"
    end.

(** ** [algorithm.HashSlice] *)

(** What [Intersect] sees of a [Hash]: its identifier; the [crypto.Hash]
    number tells two entries with one identifier apart. *)
Record Hash : Type := mkHash {
  Hash_Id : byte;
  HashFunc : Z
}.

(** The inner loop of [Intersect]: is there a [v2] in [b] with the
    identifier of [v]? *)
Definition has_Id (b : list Hash) (v : Hash) : bool :=
  existsb (fun v2 => Byte.eqb (Hash_Id v) (Hash_Id v2)) b.

(** The outer loop from index [i] on, with [todo] entries left: [hs] is the
    backing array, which the loop overwrites at [j] while it still reads
    from it at [i]. *)
Fixpoint Intersect_loop (todo i j : nat) (hs b : list Hash) : list Hash * nat :=
  match todo with
  | O => (hs, j)
  | S todo' =>
      match hs !! i with
      | Some v =>
          if has_Id b v
          then Intersect_loop todo' (S i) (S j) (<[j := v]> hs) b
          else Intersect_loop todo' (S i) j hs b
      | None => (hs, j)
      end
  end.

(** [hs.Intersect(b)]: the backing array of [hs] after the call, and the
    slice [hs[:j]] it returns. *)
Definition Intersect (hs b : list Hash) : list Hash * list Hash :=
  let '(arr, j) := Intersect_loop (length hs) 0 0 hs b in
  (arr, take j arr).

(** The hashes of [algorithm/hash.go] that the examples use. *)
Definition MD5 : Hash := mkHash x01 2.
Definition SHA1 : Hash := mkHash x02 3.
Definition RIPEMD160 : Hash := mkHash x03 9.

(** ** Notions the statements use *)

#[global] Instance byte_eq_dec : EqDecision byte := Byte.byte_eq_dec.

(** A caller that calls [Decrypt] once for every passphrase of a list, on
    the same packet, and keeps what every call returned. *)
Fixpoint Decrypt_calls (passphrases : list (list byte)) (pk : PrivateKey)
  : PrivateKey * list status :=
  match passphrases with
  | [] => (pk, [])
  | p :: rest =>
      let '(pk1, res) := Decrypt p pk in
      let '(pk2, results) := Decrypt_calls rest pk1 in
      (pk2, res :: results)
  end.

(** The sum of the bytes as an integer, without wrap-around. *)
Definition byte_sum (l : list byte) : Z :=
  fold_right (fun b s => Z_of_byte b + s) 0 l.

(** The integrity trailer of decrypted bytes, as the spec words it: a SHA-1
    digest of all but the last 20 bytes in the last 20 bytes, or the sum
    modulo 2^16 of all but the last two bytes in the last two bytes, big
    endian. *)
Definition trailer_size (sha1 : bool) : nat := if sha1 then 20%nat else 2%nat.

Definition trailer_matches (sha1 : bool) (data : list byte) : Prop :=
  let body := take (length data - trailer_size sha1) data in
  let trailer := drop (length data - trailer_size sha1) data in
  if sha1 then sha1_Sum body = trailer
  else byte_sum body mod 65536 = big_SetBytes trailer.

(** A private-key packet that [Serialize] can write and [parse] can read
    back: the key material belongs to the algorithm and the public key of the
    packet, every secret integer is non-negative with a bit length that fits
    the 16-bit prefix, and an RSA key has two primes and passes [Validate]. *)
Definition round_trip_ready (pk : PrivateKey) : Prop :=
  match PrivateKey_key pk with
  | RSAPrivateKey priv =>
      (PubKeyAlgo (PublicKey_of pk) = PubKeyAlgoRSA
       \/ PubKeyAlgo (PublicKey_of pk) = PubKeyAlgoRSASignOnly
       \/ PubKeyAlgo (PublicKey_of pk) = PubKeyAlgoRSAEncryptOnly)
      /\ PublicKey_key (PublicKey_of pk) = RSAPublicKey (rsa_PublicKey_of priv)
      /\ (exists p q, Primes priv = [p; q] /\ BitLen p < 65536 /\ BitLen q < 65536)
      /\ 0 <= rsa_D priv /\ BitLen (rsa_D priv) < 65536
      /\ Validate priv = Ok tt
  | DSAPrivateKey priv =>
      PubKeyAlgo (PublicKey_of pk) = PubKeyAlgoDSA
      /\ PublicKey_key (PublicKey_of pk) = DSAPublicKey (dsa_PublicKey_of priv)
      /\ 0 <= dsa_X priv /\ BitLen (dsa_X priv) < 65536
  | ElGamalPrivateKey priv =>
      PubKeyAlgo (PublicKey_of pk) = PubKeyAlgoElGamal
      /\ PublicKey_key (PublicKey_of pk) = ElGamalPublicKey (elgamal_PublicKey_of priv)
      /\ 0 <= elgamal_X priv /\ BitLen (elgamal_X priv) < 65536
  | ECDSAPrivateKey priv =>
      PubKeyAlgo (PublicKey_of pk) = PubKeyAlgoECDSA
      /\ PublicKey_key (PublicKey_of pk) = ECDSAPublicKey (ecdsa_PublicKey_of priv)
      /\ 0 <= ecdsa_D priv /\ BitLen (ecdsa_D priv) < 65536
  | NoPrivateKey => False
  end.

(** The key material a round trip ends with.  DSA, ElGamal and ECDSA keys
    come back as they were.  An RSA key comes back with its exponent, its two
    primes in exchanged slots, and the CRT values of the exchanged primes. *)
Definition after_round_trip (k : crypto_PrivateKey) : crypto_PrivateKey :=
  match k with
  | RSAPrivateKey priv =>
      match Primes priv with
      | [p; q] =>
          RSAPrivateKey
            (mk_rsa_PrivateKey (rsa_PublicKey_of priv) (rsa_D priv) [q; p]
               (Some (mkPrecomputed (rsa_D priv mod (q - 1)) (rsa_D priv mod (p - 1))
                        (ModInverse p q))))
      | _ => k
      end
  | _ => k
  end.

(** The big integers the key-material parse reads for a key, as [Serialize]
    writes them: one secret exponent, or for RSA the exponent and the two
    primes, second prime first.  The CRT coefficient and the two checksum
    bytes that [Serialize] writes after them are not part of it. *)
Definition key_material (k : crypto_PrivateKey) : list byte :=
  match k with
  | RSAPrivateKey priv =>
      match Primes priv with
      | [p; q] => EncodedBytes (SetBig (rsa_D priv)) ++ EncodedBytes (SetBig q)
                  ++ EncodedBytes (SetBig p)
      | _ => []
      end
  | DSAPrivateKey priv => EncodedBytes (SetBig (dsa_X priv))
  | ElGamalPrivateKey priv => EncodedBytes (SetBig (elgamal_X priv))
  | ECDSAPrivateKey priv => EncodedBytes (SetBig (ecdsa_D priv))
  | NoPrivateKey => []
  end.

(** ** Sample collaborators and packets

    A small instance of the collaborators, to run the packet code on concrete
    bytes: a version-4 public-key portion (version, creation time, algorithm
    identifier, big integers), a registry with one cipher under the
    private-use identifier 100, an S2K block of one byte, and a header of a
    tag and a 4-byte length.  The cipher XORs a block with its 8-byte key;
    the S2K function pads the passphrase. *)
Module Sample.

Definition xor_Cipher : Cipher :=
  mkCipher x64 8 8 (fun key => mkBlock 8 (fun src => xorBytes src key)).

Definition pad_s2k : s2k_func := fun n passphrase => resize n x00 passphrase.

Definition algo_of_Id (id : byte) : PublicKeyAlgorithm :=
  match id with
  | x01 => PubKeyAlgoRSA
  | x02 => PubKeyAlgoRSAEncryptOnly
  | x03 => PubKeyAlgoRSASignOnly
  | x10 => PubKeyAlgoElGamal
  | x11 => PubKeyAlgoDSA
  | x12 => PubKeyAlgoECDH
  | x13 => PubKeyAlgoECDSA
  | _ => PubKeyAlgoOther id
  end.

Fixpoint read_MPIs (n : nat) (r : reader) : outcome (list Z * reader) :=
  match n with
  | O => Ok ([], r)
  | S n' =>
      let! (m, r1) := ReadFrom r in
      let! (ms, r2) := read_MPIs n' r1 in
      Ok (big_SetBytes (Bytes m) :: ms, r2)
  end.

Definition parse_public (r : reader) : M PublicKey reader :=
  fun pub =>
    match readFull r 6 with
    | Ok ([v; t3; t2; t1; t0; a], r1) =>
        let time := big_SetBytes [t3; t2; t1; t0] in
        let algo := algo_of_Id a in
        let done key r' := (mkPublicKey time algo key (IsSubkey pub), Ok r') in
        match algo with
        | PubKeyAlgoRSA | PubKeyAlgoRSAEncryptOnly | PubKeyAlgoRSASignOnly =>
            match read_MPIs 2 r1 with
            | Ok ([n; e], r2) => done (RSAPublicKey (mk_rsa_PublicKey n e)) r2
            | _ => (pub, Err ErrUnexpectedEOF)
            end
        | PubKeyAlgoDSA =>
            match read_MPIs 4 r1 with
            | Ok ([p; q; g; y], r2) => done (DSAPublicKey (mk_dsa_PublicKey p q g y)) r2
            | _ => (pub, Err ErrUnexpectedEOF)
            end
        | PubKeyAlgoElGamal =>
            match read_MPIs 3 r1 with
            | Ok ([p; g; y], r2) => done (ElGamalPublicKey (mk_elgamal_PublicKey g p y)) r2
            | _ => (pub, Err ErrUnexpectedEOF)
            end
        | _ => (pub, Err (UnsupportedError "public key type"))
        end
    | _ => (pub, Err ErrUnexpectedEOF)
    end.

Definition serialize_public (pub : PublicKey) : M writer unit :=
  let* _ := (fun w => Write w (x04 :: be_encode 4 (CreationTime pub)
                                 ++ [PublicKeyAlgorithm_Id (PubKeyAlgo pub)])) in
  match PublicKey_key pub with
  | RSAPublicKey k =>
      let* _ := WriteTo (SetBig (rsa_N k)) in WriteTo (SetBig (rsa_E k))
  | DSAPublicKey k =>
      let* _ := WriteTo (SetBig (dsa_P k)) in
      let* _ := WriteTo (SetBig (dsa_Q k)) in
      let* _ := WriteTo (SetBig (dsa_G k)) in
      WriteTo (SetBig (dsa_Y k))
  | ElGamalPublicKey k =>
      let* _ := WriteTo (SetBig (elgamal_P k)) in
      let* _ := WriteTo (SetBig (elgamal_G k)) in
      WriteTo (SetBig (elgamal_Y k))
  | _ => throw (InvalidArgumentError "public key type")
  end.

Definition parse_s2k (r : reader) : option s2k_func * outcome reader :=
  match r with
  | _ :: rest => (Some pad_s2k, Ok rest)
  | [] => (None, Err ErrUnexpectedEOF)
  end.

Definition collaborators : Collaborators :=
  mkCollaborators parse_public
    (fun pub => match serialize_public pub buffer with
                | (w, Ok _) => Ok (written w)
                | (_, Err e) => Err e
                | (_, Panic msg) => Panic msg
                | (_, Diverges) => Diverges
                end)
    (fun id => if Byte.eqb id x64 then Some xor_Cipher else None)
    parse_s2k
    (fun ptype len =>
       (match ptype with packetTypePrivateKey => xc5 | packetTypePrivateSubkey => xc7 end)
       :: be_encode 4 (Z.of_nat len)).

(** An RSA key: [N = 61 * 53], [E = 17], [D = 2753], with the CRT values
    [Precompute] gives it. *)
Definition rsa_key : rsa_PrivateKey :=
  mk_rsa_PrivateKey (mk_rsa_PublicKey 3233 17) 2753 [61; 53]
    (Some (mkPrecomputed 53 49 (Some 38))).

Definition rsa_packet : PrivateKey :=
  mkPrivateKey (mkPublicKey 1287866792 PubKeyAlgoRSA (RSAPublicKey (mk_rsa_PublicKey 3233 17)) false)
    false [] None None (RSAPrivateKey rsa_key) false [].

Definition dsa_public : PublicKey :=
  mkPublicKey 1287866792 PubKeyAlgoDSA (DSAPublicKey (mk_dsa_PublicKey 23 11 4 8)) false.

(** The ASCII bytes of the passphrases "testing", "terthng", "wrong" and
    "t}stqng". *)
Definition testing : list byte := [x74; x65; x73; x74; x69; x6e; x67].
Definition terthng : list byte := [x74; x65; x72; x74; x68; x6e; x67].
Definition wrong : list byte := [x77; x72; x6f; x6e; x67].
Definition t_stqng : list byte := [x74; x7d; x73; x74; x71; x6e; x67].

(** The DSA secret exponent 128, its big-integer encoding followed by the
    additive checksum, encrypted under "testing" with a zero IV. *)
Definition dsa_plaintext : list byte := [x00; x08; x80; x00; x88].

Definition encrypted_dsa_packet : PrivateKey :=
  mkPrivateKey dsa_public true (xorBytes dsa_plaintext testing)
    (Some xor_Cipher) (Some pad_s2k) NoPrivateKey false (repeat x00 8).

(** The same key under the SHA-1 trailer: the blob is the CFB encryption
    under "testing" and a zero IV of [00 08 80] followed by its SHA-1
    digest. *)
Definition encrypted_dsa_packet_sha1 : PrivateKey :=
  mkPrivateKey dsa_public true
    [x74; x6d; xf3; x35; x5e; x5f; x33; x21; x57; x6a; x33; x00;
     xd9; xfb; xed; x61; x94; x2c; xff; x32; x7d; x77; x43]
    (Some xor_Cipher) (Some pad_s2k) NoPrivateKey true (repeat x00 8).

Definition unsigned_signature : SignatureV3 :=
  mkSignatureV3 x00 1287866792 0 (Some PubKeyAlgoRSA) (mkCryptoHash x02 3)
    (x00, x00) None None None.

(** A registry entry with block size 0 under the identifier 0, and the
    collaborators with this entry added to the registry. *)
Definition null_Cipher : Cipher :=
  mkCipher x00 0 0 (fun _ => mkBlock 0 (fun src => src)).

Definition collaborators_with_null_cipher : Collaborators :=
  mkCollaborators (PublicKey_parse collaborators) (serializeWithoutHeaders collaborators)
    (fun id => if Byte.eqb id x00 then Some null_Cipher else CipherById collaborators id)
    (s2k_Parse collaborators) (header collaborators).

End Sample.

(** * Further code of the three files *)

(** ** [algorithm/hash.go]: the registry, the names and [Ids] *)

Definition SHA256 : Hash := mkHash x08 5.
Definition SHA384 : Hash := mkHash x09 6.
Definition SHA512 : Hash := mkHash x0a 7.
Definition SHA224 : Hash := mkHash x0b 4.

(** A Go map literal as the list of its entries; [m[k]] is the value of the
    entry with the key [k]. *)
Definition map_lookup {V : Type} (m : list (byte * V)) (k : byte) : option V :=
  match List.find (fun e => Byte.eqb (fst e) k) m with
  | Some e => Some (snd e)
  | None => None
  end.

Definition HashById_entries : list (byte * Hash) :=
  [(Hash_Id MD5, MD5); (Hash_Id SHA1, SHA1); (Hash_Id RIPEMD160, RIPEMD160);
   (Hash_Id SHA256, SHA256); (Hash_Id SHA384, SHA384); (Hash_Id SHA512, SHA512);
   (Hash_Id SHA224, SHA224)].

Definition HashById (id : byte) : option Hash := map_lookup HashById_entries id.

Definition hashNames : list (byte * string) :=
  [(Hash_Id MD5, "MD5"%string); (Hash_Id SHA1, "SHA1"%string);
   (Hash_Id RIPEMD160, "RIPEMD160"%string); (Hash_Id SHA256, "SHA256"%string);
   (Hash_Id SHA384, "SHA384"%string); (Hash_Id SHA512, "SHA512"%string);
   (Hash_Id SHA224, "SHA224"%string)].

(** [CryptoHash.String] *)
Definition Hash_String (h : Hash) : outcome string :=
  match map_lookup hashNames (Hash_Id h) with
  | Some s => Ok s
  | None => Panic (String.append "Unsupported hash function " (Itoa (Z_of_byte (Hash_Id h))))
  end.



(** ** [SignatureV3.parse]

    The receiver as a parse without error leaves it, with the rest of the
    reader; after an error the packet reader drops the receiver, and what it
    holds then is not modelled.  [PublicKeyById] is the registry of
    public-key algorithms, which is outside the four files.  [buf] is the
    8-byte array of the Go code: after the key identifier has been read into
    it, the two algorithm bytes overwrite its first two bytes. *)
Definition SignatureV3_parse (PublicKeyById : byte -> option PublicKeyAlgorithm)
  (r : reader) (sig : SignatureV3) : outcome (SignatureV3 * reader) :=
  let! (buf, r) := readFull r 1 in
  let version := Z_of_byte (nth 0 buf x00) in
  if (version <? 2) || (version >? 3)
  then Err (UnsupportedError (String.append "signature packet version " (Itoa version)))
  else
    let! (buf, r) := readFull r 1 in
    if negb (Z_of_byte (nth 0 buf x00) =? 5)
    then Err (UnsupportedError
                (String.append "invalid hashed material length "
                   (Itoa (Z_of_byte (nth 0 buf x00)))))
    else
      let! (hashed, r) := readFull r 5 in
      let sigType := nth 0 hashed x00 in
      let t := big_SetBytes (drop 1 hashed) in
      let! (keyId, r) := readFull r 8 in
      let issuer := big_SetBytes keyId in
      let! (algos, r) := readFull r 2 in
      let buf := algos ++ drop 2 keyId in
      match PublicKeyById (nth 0 buf x00) with
      | None =>
          Err (UnsupportedError
                 (String.append "public key algorithm " (Itoa (Z_of_byte (nth 0 buf x00)))))
      | Some algo =>
          match HashById (nth 1 buf x00) with
          | None =>
              Err (UnsupportedError
                     (String.append "hash function " (Itoa (Z_of_byte (nth 2 buf x00)))))
          | Some hash =>
              let! (tag, r) := readFull r 2 in
              let header :=
                mkSignatureV3 sigType t issuer (Some algo)
                  (mkCryptoHash (Hash_Id hash) (HashFunc hash))
                  (nth 0 tag x00, nth 1 tag x00) in
              match algo with
              | PubKeyAlgoRSA | PubKeyAlgoRSASignOnly =>
                  let! (m, r) := ReadFrom r in
                  Ok (header (Some m) (DSASigR sig) (DSASigS sig), r)
              | PubKeyAlgoDSA =>
                  let! (sigR, r) := ReadFrom r in
                  let! (sigS, r) := ReadFrom r in
                  Ok (header (RSASignature sig) (Some sigR) (Some sigS), r)
              | _ => Panic "unreachable"
              end
          end
      end.

(** The public-key algorithm and the library key agree, as the parser of
    the public-key portion leaves them for the algorithms that have a
    private-key parser. *)
Definition consistent_PublicKey (pub : PublicKey) : Prop :=
  match PubKeyAlgo pub, PublicKey_key pub with
  | (PubKeyAlgoRSA | PubKeyAlgoRSASignOnly | PubKeyAlgoRSAEncryptOnly), RSAPublicKey _ => True
  | PubKeyAlgoDSA, DSAPublicKey _ => True
  | PubKeyAlgoElGamal, ElGamalPublicKey _ => True
  | PubKeyAlgoECDSA, ECDSAPublicKey _ => True
  | _, _ => False
  end.

(** [new(SignatureV3)] *)
Definition new_SignatureV3 : SignatureV3 :=
  mkSignatureV3 x00 0 0 None (mkCryptoHash x00 0) (x00, x00) None None None.

(** A registry of public-key algorithms for the examples: the identifiers of
    RFC 4880. *)
Definition sample_PublicKeyById (id : byte) : option PublicKeyAlgorithm :=
  match Sample.algo_of_Id id with
  | PubKeyAlgoOther _ => None
  | a => Some a
  end.

(** * Properties *)

(** ** Bytes and big-endian integers *)

Lemma Z_of_byte_range (b : byte) : 0 <= Z_of_byte b < 256.
Proof.
  unfold Z_of_byte. pose proof (Byte.to_N_bounded b) as H.
  split; [apply N2Z.is_nonneg|]. lia.
Qed.

Lemma Z_of_byte_of_Z (z : Z) : Z_of_byte (byte_of_Z z) = z mod 256.
Proof.
  unfold Z_of_byte, byte_of_Z.
  pose proof (Z.mod_pos_bound z 256 ltac:(lia)) as Hr.
  destruct (Byte.of_N (Z.to_N (z mod 256))) as [b|] eqn:E.
  - apply Byte.to_of_N in E. rewrite E. rewrite Z2N.id; lia.
  - apply Byte.of_N_None_iff in E. lia.
Qed.

Lemma byte_of_Z_of_byte (b : byte) : byte_of_Z (Z_of_byte b) = b.
Proof.
  unfold byte_of_Z, Z_of_byte.
  pose proof (Z_of_byte_range b) as Hr. unfold Z_of_byte in Hr.
  rewrite Z.mod_small by lia. rewrite N2Z.id, Byte.of_to_N. reflexivity.
Qed.

Lemma Z_of_byte_inj (a b : byte) : Z_of_byte a = Z_of_byte b -> a = b.
Proof.
  intros H. rewrite <- (byte_of_Z_of_byte a), <- (byte_of_Z_of_byte b), H.
  reflexivity.
Qed.

Lemma Byte_eqb_eq (a b : byte) : Byte.eqb a b = true <-> a = b.
Proof.
  split; [apply Byte.byte_dec_bl | apply Byte.byte_dec_lb].
Qed.

Lemma bytes_Equal_eq (a b : list byte) : bytes_Equal a b = true <-> a = b.
Proof.
  revert b. induction a as [|x a IH]; intros [|y b]; simpl; try (split; congruence).
  rewrite andb_true_iff, Byte_eqb_eq, IH. split.
  - intros [-> ->]. reflexivity.
  - intros [= -> ->]. split; reflexivity.
Qed.

Lemma big_SetBytes_snoc (l : list byte) (b : byte) :
  big_SetBytes (l ++ [b]) = big_SetBytes l * 256 + Z_of_byte b.
Proof. unfold big_SetBytes. rewrite fold_left_app. reflexivity. Qed.

Lemma big_SetBytes_nonneg (l : list byte) : 0 <= big_SetBytes l.
Proof.
  induction l as [|b l IH] using rev_ind; [simpl; unfold big_SetBytes; simpl; lia|].
  rewrite big_SetBytes_snoc. pose proof (Z_of_byte_range b). lia.
Qed.

Lemma length_be_encode (k : nat) (n : Z) : length (be_encode k n) = k.
Proof.
  revert n. induction k as [|k IH]; intros n; simpl; [reflexivity|].
  rewrite length_app, IH. simpl. lia.
Qed.

Lemma big_SetBytes_be_encode (k : nat) (n : Z) :
  big_SetBytes (be_encode k n) = n mod 256 ^ Z.of_nat k.
Proof.
  revert n. induction k as [|k IH]; intros n.
  - simpl. rewrite Z.mod_1_r. reflexivity.
  - cbn [be_encode]. rewrite big_SetBytes_snoc, IH, Z_of_byte_of_Z.
    rewrite Nat2Z.inj_succ, Z.pow_succ_r by lia.
    rewrite Z.rem_mul_r; [| lia | apply Z.pow_pos_nonneg; lia].
    rewrite Z.mod_mod by lia. ring.
Qed.

Lemma BitLen_nonneg (n : Z) : 0 <= BitLen n.
Proof.
  unfold BitLen. destruct (Z.abs n =? 0); [lia|].
  pose proof (Z.log2_nonneg (Z.abs n)). lia.
Qed.

Lemma BitLen_bound (n : Z) : 0 <= n -> n < 2 ^ BitLen n.
Proof.
  intros Hn. unfold BitLen. rewrite Z.abs_eq by lia.
  destruct (n =? 0) eqn:E.
  - apply Z.eqb_eq in E. subst. simpl. lia.
  - apply Z.eqb_neq in E.
    pose proof (Z.log2_spec n ltac:(lia)) as [_ H].
    replace (Z.log2 n + 1) with (Z.succ (Z.log2 n)) by lia. exact H.
Qed.

Lemma big_SetBytes_big_Bytes (n : Z) : 0 <= n -> big_SetBytes (big_Bytes n) = n.
Proof.
  intros Hn. unfold big_Bytes. rewrite big_SetBytes_be_encode.
  rewrite Z.abs_eq by lia.
  pose proof (BitLen_nonneg n) as Hb. pose proof (BitLen_bound n Hn) as Hlt.
  rewrite Z2Nat.id by (apply Z.div_pos; lia).
  apply Z.mod_small. split; [lia|].
  eapply Z.lt_le_trans; [exact Hlt|].
  replace 256 with (2 ^ 8) by reflexivity.
  rewrite <- Z.pow_mul_r by (try apply Z.div_pos; lia).
  apply Z.pow_le_mono_r; [lia|].
  pose proof (Z.mul_div_le (BitLen n + 7) 8 ltac:(lia)).
  pose proof (Z.mod_pos_bound (BitLen n + 7) 8 ltac:(lia)).
  pose proof (Z.div_mod (BitLen n + 7) 8 ltac:(lia)). lia.
Qed.

(** ** The MPI wire format *)

Lemma readFull_app (p rest : list byte) :
  readFull (p ++ rest) (length p) = Ok (p, rest).
Proof.
  unfold readFull. rewrite length_app.
  destruct (Nat.leb_spec (length p) (length p + length rest)) as [_|H]; [|lia].
  rewrite take_app_length, drop_app_length. reflexivity.
Qed.

Lemma prefix_of_uint16 (z : Z) :
  0 <= z < 65536 ->
  big_SetBytes [byte_of_Z (Z.shiftr z 8); byte_of_Z z] = z.
Proof.
  intros Hz. unfold big_SetBytes. simpl. rewrite !Z_of_byte_of_Z.
  rewrite Z.shiftr_div_pow2 by lia. change (2 ^ 8) with 256.
  rewrite (Z.mod_small (z / 256)) by (split; [apply Z.div_pos; lia | apply Z.div_lt_upper_bound; lia]).
  pose proof (Z.div_mod z 256 ltac:(lia)). lia.
Qed.

(** What [SetBig] writes is what [ReadFrom] reads, for a non-negative integer
    whose bit length fits the 16-bit prefix; the bytes after it are left in
    the reader. *)
Lemma ReadFrom_EncodedBytes (n : Z) (rest : list byte) :
  0 <= n -> BitLen n < 65536 ->
  ReadFrom (EncodedBytes (SetBig n) ++ rest)
  = Ok (mkMPI (Some (big_Bytes n)) (BitLen n), rest).
Proof.
  intros Hn Hb. pose proof (BitLen_nonneg n) as H0.
  unfold ReadFrom, EncodedBytes, SetBig, Bytes. cbn [mpi_bytes bitLength].
  unfold to_uint16. rewrite Z.mod_small by lia.
  rewrite <- app_assoc.
  change 2%nat with (length [byte_of_Z (Z.shiftr (BitLen n) 8); byte_of_Z (BitLen n)]).
  rewrite readFull_app. cbn [bind].
  rewrite prefix_of_uint16 by lia.
  replace (Z.to_nat ((BitLen n + 7) / 8)) with (length (big_Bytes n))
    by (unfold big_Bytes; apply length_be_encode).
  rewrite readFull_app. reflexivity.
Qed.

(** ** Decrypt *)

Lemma parseRSAPrivateKey_keeps_on_failure data pk pk' o :
  parseRSAPrivateKey data pk = (pk', o) -> o = Ok tt \/ pk' = pk.
Proof.
  unfold parseRSAPrivateKey. unfold_M.
  repeat break_match; intros [= <- <-]; auto.
Qed.

Lemma parseDSAPrivateKey_keeps_on_failure data pk pk' o :
  parseDSAPrivateKey data pk = (pk', o) -> o = Ok tt \/ pk' = pk.
Proof.
  unfold parseDSAPrivateKey. unfold_M.
  repeat break_match; intros [= <- <-]; auto.
Qed.

Lemma parseElGamalPrivateKey_keeps_on_failure data pk pk' o :
  parseElGamalPrivateKey data pk = (pk', o) -> o = Ok tt \/ pk' = pk.
Proof.
  unfold parseElGamalPrivateKey. unfold_M.
  repeat break_match; intros [= <- <-]; auto.
Qed.

Lemma parseECDSAPrivateKey_keeps_on_failure data pk pk' o :
  parseECDSAPrivateKey data pk = (pk', o) -> o = Ok tt \/ pk' = pk.
Proof.
  unfold parseECDSAPrivateKey. unfold_M.
  repeat break_match; intros [= <- <-]; auto.
Qed.

Lemma parsePrivateKey_keeps_on_failure data pk pk' o :
  parsePrivateKey data pk = (pk', o) -> o = Ok tt \/ pk' = pk.
Proof.
  unfold parsePrivateKey. unfold mbindM at 1. unfold get at 1.
  destruct (PubKeyAlgo (PublicKey_of pk));
    eauto using parseRSAPrivateKey_keeps_on_failure, parseDSAPrivateKey_keeps_on_failure,
      parseElGamalPrivateKey_keeps_on_failure, parseECDSAPrivateKey_keeps_on_failure;
    unfold panic, lift; intros [= <- <-]; right; reflexivity.
Qed.

(** The body of [Decrypt] from the integrity check on, as a function of the
    decrypted bytes. *)
Lemma Decrypt_unfold passphrase pk :
  Encrypted pk = true ->
  Decrypt passphrase pk =
  match decryptedData pk passphrase with
  | Ok data =>
      if sha1Checksum pk then
        if (length data <? sha1_Size)%nat
        then (pk, Err (StructuralError "truncated private key data"))
        else if negb (bytes_Equal (sha1_Sum (take (length data - sha1_Size) data))
                                  (drop (length data - sha1_Size) data))
        then (pk, Err (StructuralError "private key checksum failure"))
        else parsePrivateKey (take (length data - sha1_Size) data) pk
      else
        if (length data <? 2)%nat
        then (pk, Err (StructuralError "truncated private key data"))
        else if negb (Byte.eqb (nth (length data - 2) data x00)
                        (byte_of_Z (Z.shiftr (additive_sum (take (length data - 2) data)) 8)))
                || negb (Byte.eqb (nth (length data - 1) data x00)
                           (byte_of_Z (additive_sum (take (length data - 2) data))))
        then (pk, Err (StructuralError "private key checksum failure"))
        else parsePrivateKey (take (length data - 2) data) pk
  | Err e => (pk, Err e)
  | Panic msg => (pk, Panic msg)
  | Diverges => (pk, Diverges)
  end.
Proof.
  intros HE. unfold Decrypt. unfold_M. rewrite HE. cbn [negb].
  destruct (decryptedData pk passphrase) as [data| | |]; try reflexivity.
  destruct (sha1Checksum pk).
  - destruct (length data <? sha1_Size)%nat; [reflexivity|].
    destruct (negb (bytes_Equal _ _)); reflexivity.
  - destruct (length data <? 2)%nat; [reflexivity|].
    destruct (negb _ || negb _); reflexivity.
Qed.

(** C2: when [Decrypt] returns an error, the packet it leaves is the packet
    it was given: the [Encrypted] flag, the encrypted blob, the key material
    and every other field are unchanged. *)
Theorem Decrypt_error_leaves_packet_unchanged
  (pk pk' : PrivateKey) (passphrase : list byte) (e : error) :
  Decrypt passphrase pk = (pk', Err e) -> pk' = pk.
Proof.
  destruct (Encrypted pk) eqn:HE.
  - rewrite Decrypt_unfold by exact HE.
    destruct (decryptedData pk passphrase) as [data| | |]; try congruence.
    repeat (break_match; try congruence);
      intros H; apply parsePrivateKey_keeps_on_failure in H as [H|H]; congruence.
  - unfold Decrypt. unfold_M. rewrite HE. cbn. congruence.
Qed.

Lemma additive_sum_byte_sum (l : list byte) :
  additive_sum l = byte_sum l mod 65536.
Proof.
  unfold additive_sum.
  assert (G : forall acc, fold_left (fun sum b => to_uint16 (sum + Z_of_byte b)) l acc
                          = (acc + byte_sum l) mod 65536 \/ l = []).
  { induction l as [|b l IH]; intros acc; [right; reflexivity|left].
    cbn [fold_left byte_sum fold_right].
    destruct (IH (to_uint16 (acc + Z_of_byte b))) as [-> | ->].
    - unfold to_uint16. fold (byte_sum l).
      rewrite Zplus_mod_idemp_l. f_equal. lia.
    - cbn. unfold to_uint16. f_equal. lia. }
  destruct (G 0) as [-> | ->]; [f_equal; lia | reflexivity].
Qed.

Lemma additive_sum_range (l : list byte) : 0 <= additive_sum l < 65536.
Proof. rewrite additive_sum_byte_sum. apply Z.mod_pos_bound. lia. Qed.

Lemma trailer16_check (hi lo : byte) (s : Z) :
  0 <= s < 65536 ->
  negb (Byte.eqb hi (byte_of_Z (Z.shiftr s 8))) || negb (Byte.eqb lo (byte_of_Z s)) = false
  <-> s = big_SetBytes [hi; lo].
Proof.
  intros Hs. rewrite orb_false_iff, !negb_false_iff, !Byte_eqb_eq. split.
  - intros [-> ->]. symmetry. apply prefix_of_uint16. exact Hs.
  - intros ->. unfold big_SetBytes in *. cbn [fold_left] in *.
    pose proof (Z_of_byte_range hi). pose proof (Z_of_byte_range lo).
    rewrite Z.shiftr_div_pow2 by lia. change (2 ^ 8) with 256.
    replace ((0 * 256 + Z_of_byte hi) * 256 + Z_of_byte lo)
      with (Z_of_byte lo + Z_of_byte hi * 256) by ring.
    rewrite Z.div_add, Z.div_small, Z.add_0_l by lia.
    split; [symmetry; apply byte_of_Z_of_byte|].
    apply Z_of_byte_inj. rewrite Z_of_byte_of_Z.
    rewrite Z.mod_add, Z.mod_small by lia. reflexivity.
Qed.

Lemma last_two_bytes (data : list byte) :
  (2 <= length data)%nat ->
  drop (length data - 2) data
  = [nth (length data - 2) data x00; nth (length data - 1) data x00].
Proof.
  intros H.
  destruct (lookup_lt_is_Some_2 data (length data - 2)) as [a Ha]; [lia|].
  destruct (lookup_lt_is_Some_2 data (length data - 1)) as [b Hb]; [lia|].
  rewrite (drop_S _ _ _ Ha).
  replace (S (length data - 2)) with (length data - 1)%nat by lia.
  rewrite (drop_S _ _ _ Hb).
  replace (S (length data - 1)) with (length data) by lia.
  rewrite drop_all, !nth_lookup, Ha, Hb. reflexivity.
Qed.

(** [Decrypt] on an encrypted packet, by what the decrypted bytes are: too
    short for the trailer, a trailer that does not match, or a matching
    trailer, which is stripped. *)
Lemma Decrypt_integrity (pk : PrivateKey) (passphrase data : list byte) :
  Encrypted pk = true ->
  decryptedData pk passphrase = Ok data ->
  let n := trailer_size (sha1Checksum pk) in
  ((length data < n)%nat ->
     Decrypt passphrase pk = (pk, Err (StructuralError "truncated private key data")))
  /\ ((n <= length data)%nat -> ~ trailer_matches (sha1Checksum pk) data ->
     Decrypt passphrase pk = (pk, Err (StructuralError "private key checksum failure")))
  /\ ((n <= length data)%nat -> trailer_matches (sha1Checksum pk) data ->
     Decrypt passphrase pk = parsePrivateKey (take (length data - n) data) pk).
Proof.
  intros HE Hd n. rewrite Decrypt_unfold by exact HE. rewrite Hd.
  subst n. unfold trailer_matches, trailer_size, sha1_Size.
  destruct (sha1Checksum pk).
  - destruct (Nat.ltb_spec (length data) 20) as [Hlt|Hge].
    + repeat split; intros; try reflexivity; lia.
    + destruct (bytes_Equal _ _) eqn:E; cbn [negb].
      * apply bytes_Equal_eq in E. repeat split; intros; try reflexivity; try lia; tauto.
      * assert (sha1_Sum (take (length data - 20) data) <> drop (length data - 20) data)
          by (intros C; apply bytes_Equal_eq in C; congruence).
        repeat split; intros; try reflexivity; try lia; tauto.
  - destruct (Nat.ltb_spec (length data) 2) as [Hlt|Hge].
    + repeat split; intros; try reflexivity; lia.
    + rewrite (last_two_bytes data Hge).
      pose proof (additive_sum_range (take (length data - 2) data)) as Hr.
      pose proof (trailer16_check (nth (length data - 2) data x00)
                    (nth (length data - 1) data x00) _ Hr) as Hc.
      pose proof (additive_sum_byte_sum (take (length data - 2) data)) as Hs.
      destruct (negb _ || negb _) eqn:E.
      * assert (byte_sum (take (length data - 2) data) mod 65536 <>
                big_SetBytes [nth (length data - 2) data x00; nth (length data - 1) data x00])
          by (rewrite <- Hs; intros C; apply Hc in C; congruence).
        repeat split; intros; try reflexivity; try lia; tauto.
      * assert (byte_sum (take (length data - 2) data) mod 65536 =
                big_SetBytes [nth (length data - 2) data x00; nth (length data - 1) data x00])
          by (rewrite <- Hs; apply Hc; reflexivity).
        repeat split; intros; try reflexivity; try lia; tauto.
Qed.

(** C3: [Decrypt] verifies the integrity trailer of the decrypted bytes by
    mode.  With the SHA-1 trailer it needs 20 bytes, with the additive one 2,
    and fewer are a StructuralError; the digest of all but the last 20 bytes
    must be the last 20 bytes, or the sum modulo 2^16 of all but the last two
    bytes must be the big-endian value of the last two, and a mismatch is the
    checksum-failure StructuralError; on a match the trailer is stripped and
    the rest goes to the key-material parse. *)
Theorem Decrypt_verifies_integrity (pk : PrivateKey) (passphrase data : list byte) :
  Encrypted pk = true ->
  decryptedData pk passphrase = Ok data ->
  (sha1Checksum pk = true ->
     ((length data < 20)%nat ->
        Decrypt passphrase pk = (pk, Err (StructuralError "truncated private key data")))
     /\ ((20 <= length data)%nat ->
         sha1_Sum (take (length data - 20) data) <> drop (length data - 20) data ->
         Decrypt passphrase pk = (pk, Err (StructuralError "private key checksum failure")))
     /\ ((20 <= length data)%nat ->
         sha1_Sum (take (length data - 20) data) = drop (length data - 20) data ->
         Decrypt passphrase pk = parsePrivateKey (take (length data - 20) data) pk))
  /\ (sha1Checksum pk = false ->
     ((length data < 2)%nat ->
        Decrypt passphrase pk = (pk, Err (StructuralError "truncated private key data")))
     /\ ((2 <= length data)%nat ->
         byte_sum (take (length data - 2) data) mod 65536
           <> big_SetBytes (drop (length data - 2) data) ->
         Decrypt passphrase pk = (pk, Err (StructuralError "private key checksum failure")))
     /\ ((2 <= length data)%nat ->
         byte_sum (take (length data - 2) data) mod 65536
           = big_SetBytes (drop (length data - 2) data) ->
         Decrypt passphrase pk = parsePrivateKey (take (length data - 2) data) pk)).
Proof.
  intros HE Hd. pose proof (Decrypt_integrity pk passphrase data HE Hd) as H.
  split; intros Hm; rewrite Hm in H; exact H.
Qed.

Lemma Decrypt_verifies_integrity_witness :
  Decrypt Sample.testing Sample.encrypted_dsa_packet_sha1
    = parsePrivateKey [x00; x08; x80] Sample.encrypted_dsa_packet_sha1
  /\ Decrypt Sample.wrong Sample.encrypted_dsa_packet
    = (Sample.encrypted_dsa_packet,
       Err (StructuralError "private key checksum failure")).
Proof.
  split.
  - assert (Hd : decryptedData Sample.encrypted_dsa_packet_sha1 Sample.testing
                 = Ok ([x00; x08; x80] ++ sha1_Sum [x00; x08; x80]))
      by (vm_compute; reflexivity).
    refine (proj2 (proj2 (proj1 (Decrypt_verifies_integrity
              Sample.encrypted_dsa_packet_sha1 Sample.testing _ eq_refl Hd) eq_refl)) _ _).
    + vm_compute. lia.
    + vm_compute. reflexivity.
  - assert (Hd : decryptedData Sample.encrypted_dsa_packet Sample.wrong
                 = Ok [x03; x1f; x9c; x1a; x86])
      by (vm_compute; reflexivity).
    refine (proj1 (proj2 (proj2 (Decrypt_verifies_integrity
              Sample.encrypted_dsa_packet Sample.wrong _ eq_refl Hd) eq_refl)) _ _).
    + vm_compute. lia.
    + vm_compute. discriminate.
Defined.

(** C4, as the code has it: under both checksum modes, whenever the bytes a
    passphrase decrypts the blob to fail the integrity check (too few bytes
    for the trailer, or a trailer that does not match), [Decrypt] returns a
    StructuralError and leaves the packet as it was, whether a wrong
    passphrase or a corrupted blob is the cause. *)
Theorem failed_integrity_is_StructuralError (pk : PrivateKey) (passphrase data : list byte) :
  Encrypted pk = true ->
  decryptedData pk passphrase = Ok data ->
  (length data < trailer_size (sha1Checksum pk))%nat
    \/ ~ trailer_matches (sha1Checksum pk) data ->
  exists msg, Decrypt passphrase pk = (pk, Err (StructuralError msg)).
Proof.
  intros HE Hd Hfail.
  destruct (Decrypt_integrity pk passphrase data HE Hd) as (Hshort & Hbad & _).
  destruct (Nat.lt_ge_cases (length data) (trailer_size (sha1Checksum pk))) as [Hlt|Hge].
  - eexists. apply Hshort. exact Hlt.
  - destruct Hfail as [Hlt|Hno]; [lia|]. eexists. apply Hbad; assumption.
Qed.

(** The sample packet under the passphrase "wrong": the additive trailer
    does not match. *)
Lemma sample_wrong_passphrase :
  Decrypt Sample.wrong Sample.encrypted_dsa_packet
  = (Sample.encrypted_dsa_packet, Err (StructuralError "private key checksum failure")).
Proof.
  assert (Hd : decryptedData Sample.encrypted_dsa_packet Sample.wrong
               = Ok [x03; x1f; x9c; x1a; x86])
    by (vm_compute; reflexivity).
  refine (proj1 (proj2 (Decrypt_integrity
            Sample.encrypted_dsa_packet Sample.wrong _ eq_refl Hd)) _ _).
  - vm_compute. lia.
  - vm_compute. discriminate.
Defined.

Lemma failed_integrity_is_StructuralError_witness :
  exists msg, Decrypt Sample.wrong Sample.encrypted_dsa_packet
              = (Sample.encrypted_dsa_packet, Err (StructuralError msg)).
Proof.
  assert (Hd : decryptedData Sample.encrypted_dsa_packet Sample.wrong
               = Ok [x03; x1f; x9c; x1a; x86])
    by (vm_compute; reflexivity).
  refine (failed_integrity_is_StructuralError
            Sample.encrypted_dsa_packet Sample.wrong _ eq_refl Hd _).
  right. vm_compute. discriminate.
Defined.

(** C4 fails as stated: the sample packet holds the DSA exponent 128 under
    the passphrase "testing" and the additive checksum.  The passphrase
    "terthng" decrypts the blob to bytes that satisfy the checksum, and
    [Decrypt] returns success with the exponent 129; the passphrase "t}stqng"
    decrypts it to bytes that satisfy the checksum and end inside a big
    integer, and [Decrypt] returns [io.ErrUnexpectedEOF].  Neither is a
    StructuralError. *)
Lemma wrong_passphrase_without_checksum_failure :
  let pk := Sample.encrypted_dsa_packet in
  Encrypted pk = true /\ sha1Checksum pk = false
  /\ snd (Decrypt Sample.testing pk) = Ok tt
  /\ PrivateKey_key (fst (Decrypt Sample.testing pk))
     = DSAPrivateKey (mk_dsa_PrivateKey (mk_dsa_PublicKey 23 11 4 8) 128)
  /\ Sample.terthng <> Sample.testing
  /\ snd (Decrypt Sample.terthng pk) = Ok tt
  /\ PrivateKey_key (fst (Decrypt Sample.terthng pk))
     = DSAPrivateKey (mk_dsa_PrivateKey (mk_dsa_PublicKey 23 11 4 8) 129)
  /\ Sample.t_stqng <> Sample.testing
  /\ snd (Decrypt Sample.t_stqng pk) = Err ErrUnexpectedEOF
  /\ ~ (forall passphrase, passphrase <> Sample.testing ->
        exists msg, snd (Decrypt passphrase pk) = Err (StructuralError msg)).
Proof.
  cbv zeta.
  assert (H1 : snd (Decrypt Sample.terthng Sample.encrypted_dsa_packet) = Ok tt)
    by (vm_compute; reflexivity).
  assert (H2 : Sample.terthng <> Sample.testing)
    by (unfold Sample.terthng, Sample.testing; intros [=]).
  split; [reflexivity|]. split; [reflexivity|].
  split; [vm_compute; reflexivity|]. split; [vm_compute; reflexivity|].
  split; [exact H2|]. split; [exact H1|].
  split; [vm_compute; reflexivity|].
  split; [unfold Sample.t_stqng, Sample.testing; intros [=]|].
  split; [vm_compute; reflexivity|].
  intros C. destruct (C Sample.terthng H2) as [msg Hmsg].
  rewrite H1 in Hmsg. discriminate Hmsg.
Qed.

Lemma Decrypt_error_leaves_packet_unchanged_witness :
  fst (Decrypt Sample.wrong Sample.encrypted_dsa_packet) = Sample.encrypted_dsa_packet.
Proof.
  apply (Decrypt_error_leaves_packet_unchanged Sample.encrypted_dsa_packet
           (fst (Decrypt Sample.wrong Sample.encrypted_dsa_packet)) Sample.wrong
           (StructuralError "private key checksum failure")).
  rewrite sample_wrong_passphrase. reflexivity.
Defined.

(** C7: on a packet whose [Encrypted] flag is false, [Decrypt] returns
    success for every passphrase and leaves the packet as it is, and so does
    every further call: a caller that calls it with any list of passphrases
    gets success every time and ends with the packet it started with. *)
Theorem Decrypt_decrypted_is_noop (pk : PrivateKey) (passphrases : list (list byte)) :
  Encrypted pk = false ->
  Decrypt_calls passphrases pk = (pk, map (fun _ => nil_error) passphrases).
Proof.
  intros HE. induction passphrases as [|p rest IH]; [reflexivity|].
  cbn [Decrypt_calls map]. unfold Decrypt at 1. unfold_M. rewrite HE. cbn [negb].
  rewrite IH. reflexivity.
Qed.

Lemma Decrypt_decrypted_is_noop_witness :
  Decrypt_calls [Sample.testing; Sample.wrong; []] Sample.rsa_packet
  = (Sample.rsa_packet, [nil_error; nil_error; nil_error]).
Proof.
  exact (Decrypt_decrypted_is_noop Sample.rsa_packet
           [Sample.testing; Sample.wrong; []] eq_refl).
Defined.

(** ** Key-material parse *)

(** Without [Validate], [Precompute] would divide by [p - 1 = 0]. *)
Lemma Precompute_prime_one_panics (pub : rsa_PublicKey) (d q : Z) :
  Precompute (mk_rsa_PrivateKey pub d [1; q] None) = Panic "division by zero".
Proof. reflexivity. Qed.

Lemma Validate_prime_one (pub : rsa_PublicKey) (d p q : Z) :
  p = 1 \/ q = 1 ->
  exists e, Validate (mk_rsa_PrivateKey pub d [p; q] None) = Err (ErrRSA e).
Proof.
  intros Hone. unfold Validate, checkPub. cbn [rsa_PublicKey_of Primes].
  destruct (rsa_E pub <? 2); [eexists; reflexivity|].
  destruct (rsa_E pub >? 2147483647); [eexists; reflexivity|].
  cbn [bind nil_error multiply_primes].
  destruct (Z.leb_spec p 1) as [Hp|Hp]; [eexists; reflexivity|].
  destruct (Z.leb_spec q 1) as [Hq|Hq]; [eexists; reflexivity|].
  lia.
Qed.

(** C6: an RSA key-material plaintext whose three big integers can be read
    and in which either prime is the integer 1 makes the parse return an
    error of [Validate]; the packet is left as it was, and the call neither
    panics nor diverges. *)
Theorem parseRSAPrivateKey_rejects_prime_one
  (pk : PrivateKey) (rsaPub : rsa_PublicKey) (data r1 r2 r3 : list byte) (d p q : MPI) :
  PublicKey_key (PublicKey_of pk) = RSAPublicKey rsaPub ->
  ReadFrom data = Ok (d, r1) ->
  ReadFrom r1 = Ok (p, r2) ->
  ReadFrom r2 = Ok (q, r3) ->
  big_SetBytes (Bytes p) = 1 \/ big_SetBytes (Bytes q) = 1 ->
  exists e, parseRSAPrivateKey data pk = (pk, Err (ErrRSA e)).
Proof.
  intros Hpub Hd Hp Hq Hone.
  destruct (Validate_prime_one rsaPub (big_SetBytes (Bytes d)) _ _ Hone) as [e He].
  exists e. unfold parseRSAPrivateKey. unfold_M.
  rewrite Hpub, Hd, Hp, Hq, He. reflexivity.
Qed.

Lemma parseRSAPrivateKey_rejects_prime_one_witness :
  exists e, parseRSAPrivateKey
              [x00; x0c; x0a; xc1; x00; x01; x01; x00; x06; x3d] Sample.rsa_packet
            = (Sample.rsa_packet, Err (ErrRSA e)).
Proof.
  refine (parseRSAPrivateKey_rejects_prime_one Sample.rsa_packet
            (mk_rsa_PublicKey 3233 17)
            [x00; x0c; x0a; xc1; x00; x01; x01; x00; x06; x3d]
            [x00; x01; x01; x00; x06; x3d] [x00; x06; x3d] []
            (mkMPI (Some [x0a; xc1]) 12) (mkMPI (Some [x01]) 1) (mkMPI (Some [x3d]) 6)
            eq_refl _ _ _ _).
  - vm_compute. reflexivity.
  - vm_compute. reflexivity.
  - vm_compute. reflexivity.
  - left. vm_compute. reflexivity.
Defined.

Lemma readFull_more (r extra a r' : list byte) (n : nat) :
  readFull r n = Ok (a, r') -> readFull (r ++ extra) n = Ok (a, r' ++ extra).
Proof.
  unfold readFull. rewrite length_app.
  destruct (Nat.leb_spec n (length r)) as [Hle|Hgt]; [|discriminate].
  intros [= <- <-].
  destruct (Nat.leb_spec n (length r + length extra)) as [_|H]; [|lia].
  rewrite take_app_le, drop_app_le by lia. reflexivity.
Qed.

Lemma ReadFrom_more (r extra r' : list byte) (m : MPI) :
  ReadFrom r = Ok (m, r') -> ReadFrom (r ++ extra) = Ok (m, r' ++ extra).
Proof.
  unfold ReadFrom.
  destruct (readFull r 2) as [[hd r1]| | |] eqn:E1; try discriminate.
  rewrite (readFull_more _ extra _ _ _ E1). cbn [bind].
  destruct (readFull r1 _) as [[body r2]| | |] eqn:E2; try discriminate.
  rewrite (readFull_more _ extra _ _ _ E2). cbn [bind].
  intros [= <- <-]. reflexivity.
Qed.

(** A successful key-material parse installs a key, and does the same on any
    longer input and whatever the [encryptedData] field held. *)
Lemma parsePrivateKey_more (data : list byte) (pk pk' : PrivateKey) :
  parsePrivateKey data pk = (pk', Ok tt) ->
  forall extra x,
    parsePrivateKey (data ++ extra) (set_encryptedData x pk) = (pk', Ok tt).
Proof.
  unfold parsePrivateKey, parseRSAPrivateKey, parseDSAPrivateKey,
    parseElGamalPrivateKey, parseECDSAPrivateKey.
  unfold_M. intros H extra x. revert H.
  change (PublicKey_of (set_encryptedData x pk)) with (PublicKey_of pk).
  destruct (PubKeyAlgo (PublicKey_of pk)); try (intros [=]; fail); cbv beta;
    change (PublicKey_of (set_encryptedData x pk)) with (PublicKey_of pk);
    destruct (PublicKey_key (PublicKey_of pk)); try (intros [=]; fail);
    repeat match goal with
      | |- context [ReadFrom ?r] =>
          lazymatch r with
          | _ ++ extra => fail
          | _ => destruct (ReadFrom r) as [[? ?]| | |] eqn:?; try (intros [=]; fail)
          end
      end;
    repeat match goal with
      | H : ReadFrom _ = Ok _ |- _ => rewrite (ReadFrom_more _ extra _ _ H); clear H
      end;
    repeat (break_match; try (intros [=]; fail));
    intros [= <-]; reflexivity.
Qed.

(** ** parse *)

Lemma PrivateKey_parse_unencrypted (X : Collaborators) (r : reader)
  (pk0 : PrivateKey) (pub : PublicKey) (rest : list byte) :
  PublicKey_parse X r (PublicKey_of pk0) = (pub, Ok (x00 :: rest)) ->
  PrivateKey_parse X r pk0
  = parsePrivateKey rest
      (set_encryptedData rest (set_Encrypted false (set_s2k None (set_PublicKey pub pk0)))).
Proof.
  intros H. unfold PrivateKey_parse. unfold_M. rewrite H. reflexivity.
Qed.

(** C5, as the code has it: [parse] dispatches on the usage byte that
    follows the public-key portion.  0: the rest is parsed at once as
    plaintext key material, with [Encrypted] false.  254 or 255: the next
    byte is looked up in the cipher registry; an unknown cipher is an
    UnsupportedError; for a known cipher the S2K block is parsed next, and
    an error of that parse is what [parse] returns, whatever the block size
    of the cipher; once the S2K block is read a cipher with block size 0 is
    an UnsupportedError; otherwise the packet is encrypted, with the SHA-1
    checksum for 254 and the additive one for 255, the S2K function of the
    S2K block, an IV of exactly the block size and all remaining bytes as
    the encrypted blob.  Any other usage byte is an UnsupportedError.  The
    packet is a fresh one, as the packet reader hands it to [parse]. *)
Theorem PrivateKey_parse_dispatch (X : Collaborators) (pk0 : PrivateKey) (r : reader)
  (pub : PublicKey) (usage : byte) (rest : list byte) :
  PublicKey_parse X r (PublicKey_of pk0) = (pub, Ok (usage :: rest)) ->
  sha1Checksum pk0 = false ->
  (Z_of_byte usage = 0 ->
     PrivateKey_parse X r pk0
     = parsePrivateKey rest
         (mkPrivateKey pub false rest (cipher pk0) None (PrivateKey_key pk0) false (iv pk0)))
  /\ (Z_of_byte usage = 254 \/ Z_of_byte usage = 255 ->
      forall id rest1, rest = id :: rest1 ->
        (CipherById X id = None ->
           exists pk' msg, PrivateKey_parse X r pk0 = (pk', Err (UnsupportedError msg)))
        /\ (forall c f e,
              CipherById X id = Some c ->
              s2k_Parse X rest1 = (f, Err e) ->
              exists pk', PrivateKey_parse X r pk0 = (pk', Err e))
        /\ (forall c f rest2,
              CipherById X id = Some c ->
              s2k_Parse X rest1 = (f, Ok rest2) ->
              (BlockSize c = 0%nat ->
                 exists pk' msg, PrivateKey_parse X r pk0 = (pk', Err (UnsupportedError msg)))
              /\ (BlockSize c <> 0%nat -> (BlockSize c <= length rest2)%nat ->
                  PrivateKey_parse X r pk0
                  = (mkPrivateKey pub true (drop (BlockSize c) rest2) (Some c) f
                       (PrivateKey_key pk0) (Z_of_byte usage =? 254)
                       (take (BlockSize c) rest2),
                     Ok tt))))
  /\ (Z_of_byte usage <> 0 -> Z_of_byte usage <> 254 -> Z_of_byte usage <> 255 ->
      exists pk', PrivateKey_parse X r pk0
                  = (pk', Err (UnsupportedError "deprecated s2k function in private key"))).
Proof.
  intros Hpub Hsha.
  split; [|split].
  - intros Hu. unfold PrivateKey_parse. unfold mbindM at 1. rewrite Hpub.
    unfold_M. cbn. rewrite Hu. cbn.
    unfold set_PublicKey, set_s2k, set_Encrypted, set_encryptedData. cbn.
    rewrite Hsha. reflexivity.
  - intros Hu id rest1 ->.
    assert (Hz : (Z_of_byte usage =? 0) = false) by (apply Z.eqb_neq; lia).
    assert (He : ((Z_of_byte usage =? 254) || (Z_of_byte usage =? 255)) = true)
      by (apply orb_true_iff; rewrite !Z.eqb_eq; exact Hu).
    split; [|split].
    + intros Hnone. do 2 eexists.
      unfold PrivateKey_parse. unfold mbindM at 1. rewrite Hpub.
      unfold_M. cbn. rewrite Hz, He. cbn. rewrite Hnone. reflexivity.
    + intros c f e Hc Hs. eexists.
      unfold PrivateKey_parse. unfold mbindM at 1. rewrite Hpub.
      unfold_M. cbn. rewrite Hz, He. cbn. rewrite Hc, drop_0, Hs. reflexivity.
    + intros c f rest2 Hc Hs. split.
      * intros Hb. destruct (Z_of_byte usage =? 254) eqn:E254; do 2 eexists;
          unfold PrivateKey_parse; unfold mbindM at 1; rewrite Hpub;
          unfold_M; cbn; rewrite Hz, E254, He; cbn; rewrite Hc, drop_0, Hs; cbn;
          rewrite ?E254; cbn; rewrite Hb; cbn; reflexivity.
      * intros Hb Hlen.
        unfold PrivateKey_parse. unfold mbindM at 1. rewrite Hpub.
        unfold_M. cbn. rewrite Hz, He. cbn. rewrite Hc, drop_0, Hs. cbn.
        assert (Hb' : (BlockSize c =? 0)%nat = false) by (apply Nat.eqb_neq; exact Hb).
        assert (Hr : readFull rest2 (BlockSize c)
                     = Ok (take (BlockSize c) rest2, drop (BlockSize c) rest2)).
        { unfold readFull. destruct (Nat.leb_spec (BlockSize c) (length rest2)); [reflexivity|lia]. }
        assert (Hiv : resize (BlockSize c) x00 rest2 = take (BlockSize c) rest2)
          by (apply resize_le; exact Hlen).
        destruct (Z_of_byte usage =? 254); cbn; rewrite Hb'; cbn; rewrite Hr; cbn;
          unfold set_PublicKey, set_s2k, set_Encrypted, set_encryptedData, set_iv,
            set_cipher, set_sha1Checksum; cbn; rewrite Hiv, ?Hsha; reflexivity.
  - intros H0 H254 H255. eexists.
    unfold PrivateKey_parse. unfold mbindM at 1. rewrite Hpub.
    apply Z.eqb_neq in H0, H254, H255. unfold_M. cbn. rewrite H0, H254, H255. reflexivity.
Qed.

Lemma PrivateKey_parse_dispatch_witness :
  PrivateKey_parse Sample.collaborators
    ([x04; x4c; xc3; x49; xa8; x01; x00; x0c; x0c; xa1; x00; x05; x11]
     ++ [xfe; x64; x03; x00; x01; x02; x03; x04; x05; x06; x07; xaa; xbb])
    (new_PrivateKey false)
  = (mkPrivateKey
       (mkPublicKey 1287866792 PubKeyAlgoRSA (RSAPublicKey (mk_rsa_PublicKey 3233 17)) false)
       true [xaa; xbb] (Some Sample.xor_Cipher) (Some Sample.pad_s2k) NoPrivateKey true
       [x00; x01; x02; x03; x04; x05; x06; x07],
     Ok tt).
Proof.
  pose proof (PrivateKey_parse_dispatch Sample.collaborators (new_PrivateKey false)
                ([x04; x4c; xc3; x49; xa8; x01; x00; x0c; x0c; xa1; x00; x05; x11]
                 ++ [xfe; x64; x03; x00; x01; x02; x03; x04; x05; x06; x07; xaa; xbb])
                (mkPublicKey 1287866792 PubKeyAlgoRSA
                   (RSAPublicKey (mk_rsa_PublicKey 3233 17)) false)
                xfe [x64; x03; x00; x01; x02; x03; x04; x05; x06; x07; xaa; xbb]
                eq_refl eq_refl) as (_ & H & _).
  destruct (H (or_introl eq_refl) x64 _ eq_refl) as (_ & _ & H1).
  destruct (H1 Sample.xor_Cipher (Some Sample.pad_s2k)
              [x00; x01; x02; x03; x04; x05; x06; x07; xaa; xbb] eq_refl eq_refl)
    as (_ & H2).
  exact (H2 ltac:(discriminate) ltac:(simpl; lia)).
Defined.

(** C5 fails as stated for a cipher with block size 0: the registry of the
    sample, with such a cipher added under the identifier 0, and a body that
    ends after the cipher byte.  The S2K parse fails first, and [parse]
    returns its error, an unexpected end of the input, which is not an
    UnsupportedError. *)
Lemma zero_block_size_after_S2K_error :
  let X := Sample.collaborators_with_null_cipher in
  let body := [x04; x4c; xc3; x49; xa8; x01; x00; x0c; x0c; xa1; x00; x05; x11]
              ++ [xfe; x00] in
  (exists c, CipherById X x00 = Some c /\ BlockSize c = 0%nat)
  /\ snd (PrivateKey_parse X body (new_PrivateKey false)) = Err ErrUnexpectedEOF
  /\ forall msg,
       snd (PrivateKey_parse X body (new_PrivateKey false)) <> Err (UnsupportedError msg).
Proof.
  cbv zeta.
  assert (H : snd (PrivateKey_parse Sample.collaborators_with_null_cipher
                     ([x04; x4c; xc3; x49; xa8; x01; x00; x0c; x0c; xa1; x00; x05; x11]
                      ++ [xfe; x00]) (new_PrivateKey false))
              = Err ErrUnexpectedEOF)
    by (vm_compute; reflexivity).
  split; [exists Sample.null_Cipher; split; reflexivity|].
  split; [exact H|]. intros msg. rewrite H. discriminate.
Qed.

(** ** HashSlice.Intersect *)





(** ** SignatureV3.Serialize *)

Lemma Write_buffer (l p : list byte) :
  Write (mkWriter l None) p = (mkWriter (l ++ p) None, Ok tt).
Proof. reflexivity. Qed.

(** C8, what the code does instead: on a writer that accepts every write, a
    signature whose [RSASignature] field is the nil interface makes
    [Serialize] panic at [sig.RSASignature.Bytes()], after it has written
    the first 17 bytes; the invalid-argument error is not reached. *)
Theorem SignatureV3_Serialize_unsigned_panics (sig : SignatureV3) (w : writer) :
  RSASignature sig = None ->
  room w = None ->
  snd (SignatureV3_Serialize sig w)
  = Panic "invalid memory address or nil pointer dereference".
Proof.
  intros Hrsa Hroom. destruct w as [l rm]. cbn in Hroom. subst rm.
  unfold SignatureV3_Serialize. unfold mbindM at 1. rewrite Write_buffer.
  unfold mbindM at 1. rewrite Write_buffer.
  destruct (sig_PubKeyAlgo sig) as [algo|]; [|reflexivity].
  unfold mbindM at 1. unfold ret at 1.
  unfold mbindM at 1. rewrite Write_buffer.
  unfold mbindM at 1. rewrite Hrsa. reflexivity.
Qed.

Lemma SignatureV3_Serialize_unsigned_panics_witness :
  snd (SignatureV3_Serialize Sample.unsigned_signature buffer)
  = Panic "invalid memory address or nil pointer dereference".
Proof.
  exact (SignatureV3_Serialize_unsigned_panics Sample.unsigned_signature buffer
           eq_refl eq_refl).
Defined.

(** The check does its work when both fields hold an [encoding.MPI] whose
    bytes are nil. *)
Lemma SignatureV3_Serialize_nil_bytes (sig : SignatureV3) (l : list byte)
  (algo : PublicKeyAlgorithm) (bitsR bitsD : Z) :
  sig_PubKeyAlgo sig = Some algo ->
  RSASignature sig = Some (mkMPI None bitsR) ->
  DSASigR sig = Some (mkMPI None bitsD) ->
  exists msg, snd (SignatureV3_Serialize sig (mkWriter l None))
              = Err (InvalidArgumentError msg).
Proof.
  intros Ha Hrsa Hdsa. eexists.
  unfold SignatureV3_Serialize. unfold mbindM at 1. rewrite Write_buffer.
  unfold mbindM at 1. rewrite Write_buffer. rewrite Ha.
  unfold mbindM at 1. unfold ret at 1.
  unfold mbindM at 1. rewrite Write_buffer.
  unfold mbindM at 1. rewrite Hrsa, Hdsa. reflexivity.
Qed.

(** ** Serialize, then parse *)

Lemma Write_ok (w w' : writer) (p : list byte) :
  Write w p = (w', Ok tt) -> written w' = written w ++ p.
Proof.
  unfold Write. destruct (room w) as [k|].
  - destruct (length p <=? k)%nat; intros [= <-]; reflexivity.
  - intros [= <-]. reflexivity.
Qed.

Lemma WriteTo_buffer (m : MPI) (l : list byte) :
  WriteTo m (mkWriter l None) = (mkWriter (l ++ EncodedBytes m) None, Ok tt).
Proof. reflexivity. Qed.

(** [Validate] on a key with two primes, spelled out. *)
Lemma Validate_two_primes (pub : rsa_PublicKey) (d p q : Z) (pc : option PrecomputedValues) :
  Validate (mk_rsa_PrivateKey pub d [p; q] pc) = Ok tt <->
  checkPub pub = Ok tt /\ 1 < p /\ 1 < q /\ p * q = rsa_N pub
  /\ (rsa_E pub * d) mod (p - 1) = 1 /\ (rsa_E pub * d) mod (q - 1) = 1.
Proof.
  unfold Validate. cbn [rsa_PublicKey_of Primes rsa_D multiply_primes check_exponents].
  destruct (checkPub pub) as [[]| | |]; cbn [bind];
    try (split; [discriminate | intros (C & _); discriminate]).
  destruct (Z.leb_spec p 1) as [Hp|Hp]; cbn [bind];
    [split; [discriminate | intros (_ & C & _); lia]|].
  destruct (Z.leb_spec q 1) as [Hq|Hq]; cbn [bind];
    [split; [discriminate | intros (_ & _ & C & _); lia]|].
  destruct (Z.eqb_spec (1 * p * q) (rsa_N pub)) as [HN|HN]; cbn [negb];
    [|split; [discriminate | intros (_ & _ & _ & C & _); lia]].
  unfold big_Mod.
  destruct (Z.eqb_spec (p - 1) 0) as [C|_]; [lia|].
  destruct (Z.eqb_spec (q - 1) 0) as [C|_]; [lia|].
  cbn [bind]. rewrite !Z.abs_eq by lia.
  destruct (Z.eqb_spec ((rsa_E pub * d) mod (p - 1)) 1) as [H1|H1];
    [|split; [discriminate | intros (_ & _ & _ & _ & C & _); lia]].
  destruct (Z.eqb_spec ((rsa_E pub * d) mod (q - 1)) 1) as [H2|H2];
    [|split; [discriminate | intros (_ & _ & _ & _ & _ & C); lia]].
  split; [intros _; repeat split; try lia | reflexivity].
Qed.

Lemma Precompute_two_primes (pub : rsa_PublicKey) (d p q : Z) :
  1 < p -> 1 < q ->
  Precompute (mk_rsa_PrivateKey pub d [p; q] None)
  = Ok (mk_rsa_PrivateKey pub d [p; q]
          (Some (mkPrecomputed (d mod (p - 1)) (d mod (q - 1)) (ModInverse q p)))).
Proof.
  intros Hp Hq. unfold Precompute, big_Mod. cbn [Precomputed Primes rsa_D rsa_PublicKey_of].
  destruct (Z.eqb_spec (p - 1) 0) as [C|_]; [lia|].
  destruct (Z.eqb_spec (q - 1) 0) as [C|_]; [lia|].
  cbn [bind]. rewrite !Z.abs_eq by lia. reflexivity.
Qed.

(** The extended Euclid keeps [a = a0 * g] and [b = b0 * g] modulo [n]. *)
Lemma egcd_invariant (g n : Z) :
  forall (fuel : nat) (a b a0 b0 : Z),
    Z.divide n (a - a0 * g) -> Z.divide n (b - b0 * g) ->
    Z.divide n (fst (egcd fuel a b a0 b0) - snd (egcd fuel a b a0 b0) * g).
Proof.
  induction fuel as [|fuel IH]; intros a b a0 b0 Ha Hb; [exact Ha|].
  cbn [egcd]. destruct (Z.eqb_spec b 0) as [_|Hb0]; [exact Ha|].
  apply IH; [exact Hb|].
  replace (a mod b - (a0 - a / b * b0) * g)
    with ((a - a0 * g) - (a / b) * (b - b0 * g))
    by (rewrite (Z.mod_eq a b) by exact Hb0; ring).
  apply Z.divide_sub_r; [exact Ha | apply Z.divide_mul_r; exact Hb].
Qed.

(** With a product [a * b] below [2 ^ fuel] the extended Euclid ends with the
    greatest common divisor: the product is at least halved by every step. *)
Lemma egcd_gcd :
  forall (fuel : nat) (a b a0 b0 : Z),
    0 <= b < a -> a * b < 2 ^ Z.of_nat fuel ->
    fst (egcd fuel a b a0 b0) = Z.gcd a b.
Proof.
  induction fuel as [|fuel IH]; intros a b a0 b0 Hab Hfuel.
  - cbn in Hfuel. assert (b = 0) by nia. subst b.
    cbn [egcd fst]. rewrite Z.gcd_0_r, Z.abs_eq by lia. reflexivity.
  - cbn [egcd]. destruct (Z.eqb_spec b 0) as [->|Hb].
    + cbn [fst]. rewrite Z.gcd_0_r, Z.abs_eq by lia. reflexivity.
    + pose proof (Z.mod_pos_bound a b ltac:(lia)) as Hr.
      pose proof (Z.div_mod a b Hb) as Hdm.
      assert (Hq : 1 <= a / b) by (apply Z.div_le_lower_bound; lia).
      rewrite IH.
      * rewrite Z.gcd_comm, Z.gcd_mod by exact Hb. apply Z.gcd_comm.
      * lia.
      * rewrite Nat2Z.inj_succ, Z.pow_succ_r in Hfuel by lia. nia.
Qed.

(** What [ModInverse] returns for a modulus above 1: the inverse in the
    range of the modulus when there is one, and [nil] when the two numbers
    are not relatively prime. *)
Lemma ModInverse_spec (g n : Z) :
  1 < n ->
  (Z.gcd g n = 1 ->
     exists x, ModInverse g n = Some x /\ 0 <= x < n /\ (g * x) mod n = 1)
  /\ (Z.gcd g n <> 1 -> ModInverse g n = None).
Proof.
  intros Hn. unfold ModInverse. rewrite (Z.abs_eq n) by lia.
  set (fuel := Z.to_nat (2 * Z.log2 n + 2)).
  pose proof (egcd_invariant g n (S fuel) (g mod n) n 1 0) as Hinv.
  assert (Hd : fst (egcd (S fuel) (g mod n) n 1 0) = Z.gcd g n).
  { cbn [egcd]. destruct (Z.eqb_spec n 0) as [C|_]; [lia|].
    rewrite Z.mod_mod by lia.
    pose proof (Z.mod_pos_bound g n ltac:(lia)) as Hr.
    rewrite egcd_gcd.
    - rewrite Z.gcd_comm, Z.gcd_mod by lia. apply Z.gcd_comm.
    - lia.
    - pose proof (Z.log2_nonneg n).
      unfold fuel. rewrite Z2Nat.id by lia.
      replace (2 * Z.log2 n + 2) with (Z.succ (Z.log2 n) + Z.succ (Z.log2 n)) by lia.
      rewrite Z.pow_add_r by lia.
      pose proof (Z.log2_spec n ltac:(lia)) as Hln.
      nia. }
  destruct (egcd (S fuel) (g mod n) n 1 0) as [d x]. cbn [fst snd] in *. subst d.
  split.
  - intros Hgcd. rewrite Hgcd. cbn [Z.eqb Pos.eqb]. exists (x mod n).
    split; [reflexivity|]. split; [apply Z.mod_pos_bound; lia|].
    rewrite Z.mul_mod_idemp_r by lia.
    destruct Hinv as [k Hk].
    + exists (- (g / n)). rewrite (Z.mod_eq g n) by lia. ring.
    + exists 1. ring.
    + rewrite Hgcd in Hk. replace (g * x) with (1 + (- k) * n) by lia.
      rewrite Z.mod_add by lia. apply Z.mod_small. lia.
  - intros Hgcd. destruct (Z.eqb_spec (Z.gcd g n) 1) as [C|_]; [contradiction | reflexivity].
Qed.

(** Two primes that are not relatively prime have no inverse; 53 and 61
    have. *)
Example ModInverse_examples :
  ModInverse 5 5 = None /\ ModInverse 6 4 = None
  /\ ModInverse 53 61 = Some 38 /\ ModInverse 61 53 = Some 20.
Proof. repeat split; vm_compute; reflexivity. Qed.

(** The key-material parse of the exponent and two primes [q], [p] of a
    valid key, whatever follows them: the three big integers are read and
    nothing after them is. *)
Lemma parseRSAPrivateKey_three_integers (pk : PrivateKey) (pub : rsa_PublicKey)
  (d p q : Z) (rest : list byte) (pc : option PrecomputedValues) :
  PublicKey_key (PublicKey_of pk) = RSAPublicKey pub ->
  0 <= d -> BitLen d < 65536 -> BitLen p < 65536 -> BitLen q < 65536 ->
  Validate (mk_rsa_PrivateKey pub d [p; q] pc) = Ok tt ->
  parseRSAPrivateKey
    (EncodedBytes (SetBig d) ++ EncodedBytes (SetBig q) ++ EncodedBytes (SetBig p) ++ rest) pk
  = (install_key
       (RSAPrivateKey
          (mk_rsa_PrivateKey pub d [q; p]
             (Some (mkPrecomputed (d mod (q - 1)) (d mod (p - 1)) (ModInverse p q))))) pk,
     Ok tt).
Proof.
  intros Hpub Hd Hbd Hbp Hbq Hval.
  pose proof (proj1 (Validate_two_primes pub d p q pc) Hval) as (Hc & Hp & Hq & HN & H1 & H2).
  assert (Hval' : Validate (mk_rsa_PrivateKey pub d [q; p] None) = Ok tt).
  { apply Validate_two_primes. repeat split; try assumption. lia. }
  unfold parseRSAPrivateKey. unfold_M. rewrite Hpub.
  rewrite ReadFrom_EncodedBytes by assumption.
  rewrite ReadFrom_EncodedBytes by (try assumption; lia).
  rewrite ReadFrom_EncodedBytes by (try assumption; lia).
  cbn [Bytes mpi_bytes].
  rewrite !big_SetBytes_big_Bytes by lia.
  rewrite Hval', Precompute_two_primes by assumption.
  reflexivity.
Qed.

(** The same on what [serializeRSAPrivateKey] writes: the CRT coefficient
    that follows the three integers is not read. *)
Lemma parseRSAPrivateKey_serialized (pk : PrivateKey) (pub : rsa_PublicKey)
  (d p q qinv : Z) (rest : list byte) (pc : option PrecomputedValues) :
  PublicKey_key (PublicKey_of pk) = RSAPublicKey pub ->
  0 <= d -> BitLen d < 65536 -> BitLen p < 65536 -> BitLen q < 65536 ->
  Validate (mk_rsa_PrivateKey pub d [p; q] pc) = Ok tt ->
  parseRSAPrivateKey
    (EncodedBytes (SetBig d) ++ EncodedBytes (SetBig q) ++ EncodedBytes (SetBig p)
     ++ EncodedBytes (SetBig qinv) ++ rest) pk
  = (install_key
       (RSAPrivateKey
          (mk_rsa_PrivateKey pub d [q; p]
             (Some (mkPrecomputed (d mod (q - 1)) (d mod (p - 1)) (ModInverse p q))))) pk,
     Ok tt).
Proof.
  intros. eapply parseRSAPrivateKey_three_integers; eassumption.
Qed.

(** What [serializeRSAPrivateKey] writes to a buffer for a key with two or
    more primes: with a CRT coefficient, four big integers; with a [nil]
    one, three, before the panic. *)
Lemma serializeRSAPrivateKey_written (pub : rsa_PublicKey) (d p q : Z) (more : list Z)
  (dp dq : Z) (qinv : option Z) :
  serializeRSAPrivateKey
    (mk_rsa_PrivateKey pub d (p :: q :: more) (Some (mkPrecomputed dp dq qinv))) buffer
  = match qinv with
    | Some x =>
        (mkWriter (EncodedBytes (SetBig d) ++ EncodedBytes (SetBig q)
                   ++ EncodedBytes (SetBig p) ++ EncodedBytes (SetBig x)) None,
         Ok tt)
    | None =>
        (mkWriter (EncodedBytes (SetBig d) ++ EncodedBytes (SetBig q)
                   ++ EncodedBytes (SetBig p)) None,
         Panic "invalid memory address or nil pointer dereference")
    end.
Proof.
  unfold serializeRSAPrivateKey, buffer, mbindM, lift, index_Primes, get_Qinv.
  cbn [Primes Precomputed rsa_D lookup list_lookup Qinv].
  rewrite !WriteTo_buffer. destruct qinv as [x|].
  - rewrite WriteTo_buffer. cbn [app]. rewrite <- !app_assoc. reflexivity.
  - cbn [app]. rewrite <- !app_assoc. reflexivity.
Qed.

Lemma serializeRSAPrivateKey_buffer (pub : rsa_PublicKey) (d p q dp dq qinv : Z) :
  serializeRSAPrivateKey
    (mk_rsa_PrivateKey pub d [p; q] (Some (mkPrecomputed dp dq (Some qinv)))) buffer
  = (mkWriter (EncodedBytes (SetBig d) ++ EncodedBytes (SetBig q)
               ++ EncodedBytes (SetBig p) ++ EncodedBytes (SetBig qinv)) None,
     Ok tt).
Proof. apply (serializeRSAPrivateKey_written pub d p q [] dp dq (Some qinv)). Qed.


Lemma parse_one_integer (x : Z) (rest : list byte) :
  0 <= x -> BitLen x < 65536 ->
  ReadFrom (EncodedBytes (SetBig x) ++ rest) = Ok (mkMPI (Some (big_Bytes x)) (BitLen x), rest)
  /\ big_SetBytes (big_Bytes x) = x.
Proof.
  intros Hx Hb. split; [apply ReadFrom_EncodedBytes | apply big_SetBytes_big_Bytes]; assumption.
Qed.

(** The key-material parse of the big integers of a key that is ready for
    the round trip, whatever follows them. *)
Lemma parsePrivateKey_key_material (pk pk1 : PrivateKey) (trailer : list byte) :
  round_trip_ready pk ->
  PublicKey_of pk1 = PublicKey_of pk ->
  parsePrivateKey (key_material (PrivateKey_key pk) ++ trailer) pk1
  = (install_key (after_round_trip (PrivateKey_key pk)) pk1, Ok tt).
Proof.
  intros Hready Hpk1. unfold round_trip_ready in Hready.
  destruct (PrivateKey_key pk) as [|priv|priv|priv|priv] eqn:Hk; [contradiction| | | |].
  - destruct Hready as (Halgo & Hpub & (p & q & Hpq & Hbp & Hbq) & Hd & Hbd & Hval).
    destruct priv as [pub d primes pc]. cbn in Hpub, Hpq, Hd, Hbd. subst primes.
    cbn [key_material after_round_trip Primes rsa_D rsa_PublicKey_of].
    rewrite <- !app_assoc.
    unfold parsePrivateKey. unfold mbindM at 1. unfold get at 1. rewrite Hpk1.
    destruct Halgo as [-> | [-> | ->]];
      apply parseRSAPrivateKey_three_integers with (pc := pc);
      try assumption; rewrite Hpk1; exact Hpub.
  - destruct Hready as (Halgo & Hpub & Hx & Hbx).
    destruct (parse_one_integer _ [] Hx Hbx) as [_ Hv].
    cbn [key_material after_round_trip].
    unfold parsePrivateKey. unfold mbindM at 1. unfold get at 1. rewrite Hpk1, Halgo.
    unfold parseDSAPrivateKey. unfold_M. rewrite Hpk1, Hpub.
    rewrite ReadFrom_EncodedBytes by assumption. cbn [Bytes mpi_bytes]. rewrite Hv.
    destruct priv. reflexivity.
  - destruct Hready as (Halgo & Hpub & Hx & Hbx).
    destruct (parse_one_integer _ [] Hx Hbx) as [_ Hv].
    cbn [key_material after_round_trip].
    unfold parsePrivateKey. unfold mbindM at 1. unfold get at 1. rewrite Hpk1, Halgo.
    unfold parseElGamalPrivateKey. unfold_M. rewrite Hpk1, Hpub.
    rewrite ReadFrom_EncodedBytes by assumption. cbn [Bytes mpi_bytes]. rewrite Hv.
    destruct priv. reflexivity.
  - destruct Hready as (Halgo & Hpub & Hx & Hbx).
    destruct (parse_one_integer _ [] Hx Hbx) as [_ Hv].
    cbn [key_material after_round_trip].
    unfold parsePrivateKey. unfold mbindM at 1. unfold get at 1. rewrite Hpk1, Halgo.
    unfold parseECDSAPrivateKey. unfold_M. rewrite Hpk1, Hpub.
    rewrite ReadFrom_EncodedBytes by assumption. cbn [Bytes mpi_bytes]. rewrite Hv.
    destruct priv. reflexivity.
Qed.






(** C10: with the usage byte 0 nothing checks the two checksum bytes that
    [Serialize] puts after the key material.  A body made of the public-key
    portion, the byte 0 and the big integers of a key (for RSA the exponent
    and the two primes of a valid key, otherwise the secret exponent) is
    parsed with success whatever bytes follow the integers: none, the
    checksum [Serialize] writes, or any other.  The packet that comes out is
    the same for every such trailer: unencrypted, with the key of these
    integers. *)
Theorem unencrypted_parse_ignores_trailer (X : Collaborators) (pk pk0 : PrivateKey)
  (public_portion : list byte) :
  (forall rest, PublicKey_parse X (public_portion ++ rest) (PublicKey_of pk0)
                = (PublicKey_of pk, Ok rest)) ->
  round_trip_ready pk ->
  exists pk',
    Encrypted pk' = false
    /\ PublicKey_of pk' = PublicKey_of pk
    /\ PrivateKey_key pk' = after_round_trip (PrivateKey_key pk)
    /\ forall trailer,
         PrivateKey_parse X
           (public_portion ++ x00 :: key_material (PrivateKey_key pk) ++ trailer) pk0
         = (pk', Ok tt).
Proof.
  intros Hpub Hready.
  exists (install_key (after_round_trip (PrivateKey_key pk))
            (set_Encrypted false (set_s2k None (set_PublicKey (PublicKey_of pk) pk0)))).
  split; [reflexivity|]. split; [reflexivity|]. split; [reflexivity|].
  intros trailer.
  rewrite (PrivateKey_parse_unencrypted X _ pk0 (PublicKey_of pk) _ (Hpub _)).
  rewrite (parsePrivateKey_key_material pk) by first [exact Hready | reflexivity].
  reflexivity.
Qed.

Lemma unencrypted_parse_ignores_trailer_witness :
  exists pk',
    Encrypted pk' = false
    /\ PublicKey_of pk' = PublicKey_of Sample.rsa_packet
    /\ PrivateKey_key pk' = after_round_trip (PrivateKey_key Sample.rsa_packet)
    /\ forall trailer,
         PrivateKey_parse Sample.collaborators
           ([x04; x4c; xc3; x49; xa8; x01; x00; x0c; x0c; xa1; x00; x05; x11]
            ++ x00 :: key_material (PrivateKey_key Sample.rsa_packet) ++ trailer)
           (new_PrivateKey false)
         = (pk', Ok tt).
Proof.
  apply (unencrypted_parse_ignores_trailer Sample.collaborators Sample.rsa_packet
           (new_PrivateKey false)
           [x04; x4c; xc3; x49; xa8; x01; x00; x0c; x0c; xa1; x00; x05; x11]).
  - intros rest. reflexivity.
  - unfold round_trip_ready. cbn.
    split; [left; reflexivity|]. split; [reflexivity|].
    split; [exists 61, 53; repeat split; vm_compute; reflexivity|].
    split; [lia|]. split; vm_compute; reflexivity.
Defined.

(** The SHA-1 of the model on the test vectors of FIPS 180. *)
Example sha1_abc :
  sha1_Sum [x61; x62; x63]
  = [xa9; x99; x3e; x36; x47; x06; x81; x6a; xba; x3e;
     x25; x71; x78; x50; xc2; x6c; x9c; xd0; xd8; x9d].
Proof. vm_compute. reflexivity. Qed.

Example sha1_empty :
  sha1_Sum []
  = [xda; x39; xa3; xee; x5e; x6b; x4b; x0d; x32; x55;
     xbf; xef; x95; x60; x18; x90; xaf; xd8; x07; x09].
Proof. vm_compute. reflexivity. Qed.

(** ** A blob for every passphrase *)

Lemma xor_byte_self (a : byte) : xor_byte a a = x00.
Proof. unfold xor_byte. rewrite Z.lxor_nilpotent. reflexivity. Qed.

Lemma xorBytes_take_self (n : nat) (l : list byte) :
  xorBytes (take n l) l = repeat x00 (Nat.min n (length l)).
Proof.
  revert l. induction n as [|n IH]; intros [|a l]; try reflexivity.
  cbn. rewrite xor_byte_self. f_equal. apply IH.
Qed.

(** The additive checksum does not tie a blob to a passphrase: for every
    cipher with blocks of at least 4 bytes, every S2K function and every
    passphrase there is a 4-byte blob that this passphrase decrypts to zero
    bytes, which carry a matching checksum and the DSA exponent 0, so that
    [Decrypt] succeeds. *)
Lemma every_passphrase_opens_some_blob (c : Cipher) (f : s2k_func) (pub : PublicKey)
  (k : dsa_PublicKey) (passphrase ivv : list byte) :
  PubKeyAlgo pub = PubKeyAlgoDSA ->
  PublicKey_key pub = DSAPublicKey k ->
  let block := New c (resize (KeySize c) x00 (f (KeySize c) passphrase)) in
  length ivv = Block_BlockSize block ->
  (4 <= Block_BlockSize block)%nat ->
  let blob := take 4 (resize (Block_BlockSize block) x00
                        (Encrypt block (resize (Block_BlockSize block) x00 ivv))) in
  let pk := mkPrivateKey pub true blob (Some c) (Some f) NoPrivateKey false ivv in
  Decrypt passphrase pk = (install_key (DSAPrivateKey (mk_dsa_PrivateKey k 0)) pk, Ok tt).
Proof.
  intros Halgo Hkey block Hiv Hbs blob pk.
  set (out := resize (Block_BlockSize block) x00
                (Encrypt block (resize (Block_BlockSize block) x00 ivv))) in *.
  assert (Hout : length out = Block_BlockSize block) by apply length_resize.
  assert (Hdata : decryptedData pk passphrase = Ok [x00; x00; x00; x00]).
  { unfold decryptedData, pk, CFBDecrypt.
    cbn [cipher s2k iv encryptedData]. fold block.
    rewrite Hiv, Nat.eqb_refl. cbn [negb].
    assert (Hlen : length blob = 4%nat) by (unfold blob; rewrite length_take; lia).
    pose proof (xorBytes_take_self 4 out) as Hx. fold blob in Hx.
    rewrite Nat.min_l in Hx by lia.
    destruct blob as [|b0 [|b1 [|b2 [|b3 [|b4 t]]]]]; try discriminate.
    cbn [length XORKeyStream]. fold out.
    rewrite Nat.min_l by lia. cbn [take drop firstn skipn XORKeyStream].
    rewrite Hx. reflexivity. }
  destruct (Decrypt_integrity pk passphrase _ eq_refl Hdata) as (_ & _ & Hmatch).
  rewrite Hmatch by (vm_compute; first [lia | reflexivity]).
  unfold pk at 1. cbn [sha1Checksum trailer_size length Nat.sub take firstn].
  unfold parsePrivateKey. unfold mbindM at 1. unfold get at 1.
  change (PublicKey_of pk) with pub. rewrite Halgo.
  unfold parseDSAPrivateKey. unfold_M. change (PublicKey_of pk) with pub. rewrite Hkey.
  reflexivity.
Qed.

(** * Further properties *)

(** ** The hash registry *)

Lemma map_lookup_Some {V : Type} (m : list (byte * V)) (k : byte) (v : V) :
  map_lookup m k = Some v -> In (k, v) m.
Proof.
  unfold map_lookup. destruct (find _ m) as [[k' v']|] eqn:E; [|discriminate].
  intros [= <-]. apply find_some in E as [Hin Hk]. cbn in Hk.
  apply Byte_eqb_eq in Hk. subst k'. exact Hin.
Qed.

Lemma HashById_Id (id : byte) (h : Hash) : HashById id = Some h -> Hash_Id h = id.
Proof.
  intros H. apply map_lookup_Some in H. cbn in H.
  repeat (destruct H as [[= <- <-]|H]; [reflexivity|]). contradiction.
Qed.

Lemma HashById_registered (id : byte) :
  HashById id <> None <-> In id [x01; x02; x03; x08; x09; x0a; x0b].
Proof.
  split.
  - intros H. destruct (HashById id) as [h|] eqn:E; [|congruence].
    apply map_lookup_Some in E. cbn in E. cbn.
    repeat (destruct E as [[= <- <-]|E]; [tauto|]). contradiction.
  - cbn. intros H.
    repeat (destruct H as [<-|H]; [discriminate|]). contradiction.
Qed.

Lemma hashNames_registered (id : byte) :
  (exists name, map_lookup hashNames id = Some name) <-> HashById id <> None.
Proof.
  rewrite HashById_registered. split.
  - intros [name H]. apply map_lookup_Some in H. cbn in H. cbn.
    repeat (destruct H as [[= <- _]|H]; [tauto|]). contradiction.
  - cbn. intros H.
    repeat (destruct H as [<-|H]; [eexists; reflexivity|]). contradiction.
Qed.

(** X1: looking a hash up by an identifier gives a hash with that
    identifier, and the registry holds the identifiers 1, 2, 3, 8, 9, 10 and
    11 and no other. *)
Theorem HashById_coherent (id : byte) :
  (forall h, HashById id = Some h -> Hash_Id h = id)
  /\ (HashById id <> None <-> In id [x01; x02; x03; x08; x09; x0a; x0b]).
Proof.
  split; [intros h; apply HashById_Id | apply HashById_registered].
Qed.

Lemma HashById_coherent_witness :
  Hash_Id SHA256 = x08 /\ HashById x04 = None.
Proof.
  split.
  - apply (proj1 (HashById_coherent x08) SHA256). reflexivity.
  - destruct (HashById x04) as [h|] eqn:E; [|reflexivity].
    exfalso.
    assert (H : In x04 [x01; x02; x03; x08; x09; x0a; x0b]).
    { apply (proj1 (proj2 (HashById_coherent x04))). rewrite E. discriminate. }
    cbn in H. repeat (destruct H as [H|H]; [discriminate H|]). exact H.
Defined.

(** X2: [String] returns a name for a hash exactly when the identifier of
    the hash is in the registry, and panics for every other hash. *)
Theorem Hash_String_registered (h : Hash) :
  ((exists name, Hash_String h = Ok name) <-> HashById (Hash_Id h) <> None)
  /\ (HashById (Hash_Id h) = None -> exists msg, Hash_String h = Panic msg).
Proof.
  pose proof (hashNames_registered (Hash_Id h)) as G.
  unfold Hash_String. split.
  - rewrite <- G. destruct (map_lookup hashNames (Hash_Id h)) as [s|].
    + split; intros _; eexists; reflexivity.
    + split; intros [name H]; discriminate.
  - intros Hnone. destruct (map_lookup hashNames (Hash_Id h)) as [s|] eqn:E.
    + exfalso. apply (proj1 G); [eexists; reflexivity | exact Hnone].
    + eexists. reflexivity.
Qed.

Lemma Hash_String_registered_witness :
  (exists name, Hash_String SHA1 = Ok name)
  /\ (exists msg, Hash_String (mkHash x04 0) = Panic msg).
Proof.
  split.
  - apply (proj2 (proj1 (Hash_String_registered SHA1))). discriminate.
  - apply (proj2 (Hash_String_registered (mkHash x04 0))). reflexivity.
Defined.

(** ** Ids and Intersect *)





(** The writes of the loop stay below [j]: from [j] on the backing array is
    the receiver's. *)
Lemma Intersect_loop_footprint (a b : list Hash) :
  forall (todo i j : nat) (hs : list Hash),
    (i + todo = length a)%nat ->
    length hs = length a ->
    (j <= i)%nat ->
    drop j hs = drop j a ->
    let out := Intersect_loop todo i j hs b in
    length (fst out) = length a
    /\ (snd out <= length a)%nat
    /\ drop (snd out) (fst out) = drop (snd out) a.
Proof.
  induction todo as [|todo IH]; intros i j hs Hi Hlen Hj Hdrop.
  - cbn. repeat split; [exact Hlen | lia | exact Hdrop].
  - cbn [Intersect_loop].
    destruct (hs !! i) as [v|] eqn:Hv.
    2:{ apply lookup_ge_None in Hv. lia. }
    destruct (has_Id b v).
    + apply IH; try lia.
      * rewrite length_insert. exact Hlen.
      * rewrite drop_insert_lt by lia.
        replace (S j) with (j + 1)%nat by lia. rewrite <- !drop_drop, Hdrop. reflexivity.
    + apply IH; try lia; assumption.
Qed.

(** X4: [Intersect] works in place and overwrites only the prefix it
    returns: the backing array of the receiver keeps its length, begins with
    the returned slice, and holds the receiver's own entries after it. *)
Theorem Intersect_in_place (a b : list Hash) :
  length (fst (Intersect a b)) = length a
  /\ fst (Intersect a b)
     = snd (Intersect a b) ++ drop (length (snd (Intersect a b))) a.
Proof.
  unfold Intersect.
  pose proof (Intersect_loop_footprint a b (length a) 0 0 a
                eq_refl eq_refl (le_n 0) eq_refl) as H.
  cbv zeta in H.
  destruct (Intersect_loop (length a) 0 0 a b) as [arr j].
  cbn [fst snd] in *. destruct H as (Hlen & Hj & Hdrop).
  split; [exact Hlen|].
  rewrite length_take_le by lia. rewrite <- Hdrop, take_drop. reflexivity.
Qed.


(** ** SignatureV3: parse and Serialize *)

Lemma readFull_inv (r a r' : list byte) (n : nat) :
  readFull r n = Ok (a, r') -> r = a ++ r' /\ length a = n.
Proof.
  unfold readFull. destruct (Nat.leb_spec n (length r)) as [H|H]; [|discriminate].
  intros [= <- <-]. split; [symmetry; apply take_drop | apply length_take_le; exact H].
Qed.

Lemma readFull_short (r : list byte) (n : nat) :
  (length r < n)%nat -> readFull r n = Err ErrUnexpectedEOF.
Proof.
  intros H. unfold readFull. destruct (Nat.leb_spec n (length r)); [lia | reflexivity].
Qed.

Lemma big_SetBytes_bound (l : list byte) : 0 <= big_SetBytes l < 256 ^ Z.of_nat (length l).
Proof.
  induction l as [|b l IH] using rev_ind; [cbn; lia|].
  rewrite big_SetBytes_snoc, length_app. cbn [length].
  rewrite Nat.add_1_r, Nat2Z.inj_succ, Z.pow_succ_r by lia.
  pose proof (Z_of_byte_range b). lia.
Qed.

Lemma be_encode_big_SetBytes (l : list byte) :
  be_encode (length l) (big_SetBytes l) = l.
Proof.
  induction l as [|b l IH] using rev_ind; [reflexivity|].
  rewrite big_SetBytes_snoc, length_app. cbn [length]. rewrite Nat.add_1_r.
  cbn [be_encode]. pose proof (Z_of_byte_range b).
  rewrite Z.div_add_l, Z.div_small, Z.add_0_r by lia.
  rewrite Z.add_comm, Z.mod_add, Z.mod_small by lia.
  rewrite IH, byte_of_Z_of_byte. reflexivity.
Qed.

(** An MPI that was read is written back as the bytes it was read from. *)
Lemma ReadFrom_inv (r r' : list byte) (m : MPI) :
  ReadFrom r = Ok (m, r') -> r = EncodedBytes m ++ r' /\ is_nil (mpi_bytes m) = false.
Proof.
  unfold ReadFrom.
  destruct (readFull r 2) as [[hd r1]| | |] eqn:E1; try discriminate. cbn [bind].
  destruct (readFull r1 _) as [[body r2]| | |] eqn:E2; try discriminate. cbn [bind].
  intros [= <- <-].
  apply readFull_inv in E1 as [-> Hhd]. apply readFull_inv in E2 as [-> _].
  split; [|reflexivity].
  unfold EncodedBytes, Bytes. cbn [mpi_bytes bitLength].
  destruct hd as [|hi [|lo [|? ?]]]; try discriminate.
  pose proof (big_SetBytes_bound [hi; lo]) as Hr. cbn [length] in Hr.
  change (256 ^ Z.of_nat 2) with 65536 in Hr.
  pose proof (proj2 (trailer16_check hi lo _ Hr) eq_refl) as Hc.
  apply orb_false_iff in Hc as [H1 H2].
  apply negb_false_iff, Byte_eqb_eq in H1. apply negb_false_iff, Byte_eqb_eq in H2.
  rewrite <- H1, <- H2. rewrite <- !app_assoc. reflexivity.
Qed.

(** The fixed part of a version-3 signature, as [parse] reads it: the
    consumed bytes and the fields they give. *)
Lemma SignatureV3_parse_inv (PublicKeyById : byte -> option PublicKeyAlgorithm)
  (r rest : reader) (sig0 sig : SignatureV3) :
  SignatureV3_parse PublicKeyById r sig0 = Ok (sig, rest) ->
  exists version sigType time keyId a h tag value algo hash,
    r = version :: x05 :: (sigType :: time) ++ keyId ++ [a; h] ++ tag ++ value ++ rest
    /\ (Z_of_byte version = 2 \/ Z_of_byte version = 3)
    /\ length time = 4%nat /\ length keyId = 8%nat /\ length tag = 2%nat
    /\ PublicKeyById a = Some algo /\ HashById h = Some hash
    /\ SigType sig = sigType
    /\ sig_CreationTime sig = big_SetBytes time
    /\ IssuerKeyId sig = big_SetBytes keyId
    /\ sig_PubKeyAlgo sig = Some algo
    /\ sig_Hash sig = mkCryptoHash h (HashFunc hash)
    /\ [fst (HashTag sig); snd (HashTag sig)] = tag
    /\ match algo with
       | PubKeyAlgoRSA | PubKeyAlgoRSASignOnly =>
           exists m, RSASignature sig = Some m /\ value = EncodedBytes m
                     /\ is_nil (mpi_bytes m) = false
                     /\ DSASigR sig = DSASigR sig0 /\ DSASigS sig = DSASigS sig0
       | PubKeyAlgoDSA =>
           exists mr ms, DSASigR sig = Some mr /\ DSASigS sig = Some ms
                         /\ value = EncodedBytes mr ++ EncodedBytes ms
                         /\ RSASignature sig = RSASignature sig0
       | _ => False
       end.
Proof.
  unfold SignatureV3_parse.
  destruct (readFull r 1) as [[b1 r1]| | |] eqn:E1; try discriminate. cbn [bind].
  apply readFull_inv in E1 as [-> L1].
  destruct b1 as [|version [|? ?]]; try discriminate. cbn [nth].
  destruct (Z.ltb_spec (Z_of_byte version) 2) as [Hlo|Hlo]; [discriminate|].
  destruct (Z.gtb_spec (Z_of_byte version) 3) as [Hhi|Hhi]; [discriminate|]. cbn [orb].
  destruct (readFull r1 1) as [[b2 r2]| | |] eqn:E2; try discriminate. cbn [bind].
  apply readFull_inv in E2 as [-> L2].
  destruct b2 as [|marker [|? ?]]; try discriminate. cbn [nth].
  destruct (Z.eqb_spec (Z_of_byte marker) 5) as [Hm|Hm]; [|discriminate]. cbn [negb].
  assert (marker = x05) by (apply Z_of_byte_inj; exact Hm). subst marker.
  destruct (readFull r2 5) as [[hashed r3]| | |] eqn:E3; try discriminate. cbn [bind].
  apply readFull_inv in E3 as [-> L3].
  destruct hashed as [|sigType time]; try discriminate.
  destruct (readFull r3 8) as [[keyId r4]| | |] eqn:E4; try discriminate. cbn [bind].
  apply readFull_inv in E4 as [-> L4].
  destruct (readFull r4 2) as [[algos r5]| | |] eqn:E5; try discriminate. cbn [bind].
  apply readFull_inv in E5 as [-> L5].
  destruct algos as [|a [|h [|? ?]]]; try discriminate. cbn [app nth].
  destruct (PublicKeyById a) as [algo|] eqn:Ea; [|discriminate].
  destruct (HashById h) as [hash|] eqn:Eh; [|discriminate].
  destruct (readFull r5 2) as [[tag r6]| | |] eqn:E6; try discriminate. cbn [bind].
  apply readFull_inv in E6 as [-> L6].
  destruct tag as [|t0 [|t1 [|? ?]]]; try discriminate. cbn [nth].
  pose proof (HashById_Id _ _ Eh) as Hid.
  destruct algo; try discriminate.
  - destruct (ReadFrom r6) as [[m r7]| | |] eqn:E7; try discriminate. cbn [bind].
    intros [= <- <-]. apply ReadFrom_inv in E7 as [-> Hnil].
    exists version, sigType, time, keyId, a, h, [t0; t1], (EncodedBytes m),
      PubKeyAlgoRSA, hash.
    cbn in L3. rewrite Hid.
    repeat split; try assumption; try reflexivity; try lia.
    exists m. repeat split; assumption.
  - destruct (ReadFrom r6) as [[m r7]| | |] eqn:E7; try discriminate. cbn [bind].
    intros [= <- <-]. apply ReadFrom_inv in E7 as [-> Hnil].
    exists version, sigType, time, keyId, a, h, [t0; t1], (EncodedBytes m),
      PubKeyAlgoRSASignOnly, hash.
    cbn in L3. rewrite Hid.
    repeat split; try assumption; try reflexivity; try lia.
    exists m. repeat split; assumption.
  - destruct (ReadFrom r6) as [[mr r7]| | |] eqn:E7; try discriminate. cbn [bind].
    destruct (ReadFrom r7) as [[ms r8]| | |] eqn:E8; try discriminate. cbn [bind].
    intros [= <- <-].
    apply ReadFrom_inv in E7 as [-> _]. apply ReadFrom_inv in E8 as [-> _].
    exists version, sigType, time, keyId, a, h, [t0; t1],
      (EncodedBytes mr ++ EncodedBytes ms), PubKeyAlgoDSA, hash.
    cbn in L3. rewrite Hid, <- !app_assoc.
    repeat split; try assumption; try reflexivity; try lia.
    exists mr, ms. repeat split; reflexivity.
Qed.

(** X6: a version-3 RSA signature that [parse] has read is written back by
    [Serialize] byte for byte: on a writer that accepts every write it
    writes exactly the bytes [parse] consumed after the version byte and the
    byte 5.  The registry is assumed to map an identifier to an algorithm
    with that identifier. *)
Theorem SignatureV3_parse_Serialize_RSA
  (PublicKeyById : byte -> option PublicKeyAlgorithm)
  (r rest : reader) (sig0 sig : SignatureV3) (l : list byte) :
  (forall id a, PublicKeyById id = Some a -> PublicKeyAlgorithm_Id a = id) ->
  SignatureV3_parse PublicKeyById r sig0 = Ok (sig, rest) ->
  sig_PubKeyAlgo sig = Some PubKeyAlgoRSA \/ sig_PubKeyAlgo sig = Some PubKeyAlgoRSASignOnly ->
  exists version body,
    r = version :: x05 :: body ++ rest
    /\ SignatureV3_Serialize sig (mkWriter l None) = (mkWriter (l ++ body) None, Ok tt).
Proof.
  intros Hreg Hparse Halgo.
  destruct (SignatureV3_parse_inv _ _ _ _ _ Hparse)
    as (version & sigType & time & keyId & a & h & tag & value & algo & hash
        & -> & _ & Lt & Lk & Ltag & Ea & Eh & Hst & Hct & Hik & Hpa & Hsh & Htag & Hval).
  exists version, ((sigType :: time) ++ keyId ++ [a; h] ++ tag ++ value).
  split; [rewrite <- !app_assoc; reflexivity|].
  assert (Hrsa : exists m, RSASignature sig = Some m /\ value = EncodedBytes m
                           /\ is_nil (mpi_bytes m) = false).
  { rewrite Hpa in Halgo.
    destruct Halgo as [[= ->]|[= ->]]; destruct Hval as (m & ? & ? & ? & _); eauto. }
  destruct Hrsa as (m & Hm & -> & Hnil).
  assert (Htime : be_encode 4 (to_uint32 (sig_CreationTime sig)) = time).
  { rewrite Hct. unfold to_uint32. pose proof (big_SetBytes_bound time) as Hb.
    rewrite Lt in Hb. change (256 ^ Z.of_nat 4) with 4294967296 in Hb.
    rewrite Z.mod_small by lia. rewrite <- Lt. apply be_encode_big_SetBytes. }
  assert (Hkey : be_encode 8 (IssuerKeyId sig) = keyId)
    by (rewrite Hik, <- Lk; apply be_encode_big_SetBytes).
  unfold SignatureV3_Serialize.
  unfold mbindM at 1. rewrite Write_buffer, Htime, Hst.
  unfold mbindM at 1. rewrite Write_buffer, Hkey, Hpa.
  unfold mbindM at 1. unfold ret at 1.
  unfold mbindM at 1. rewrite Write_buffer.
  rewrite (Hreg _ _ Ea), Hsh. cbn [CryptoHash_id].
  unfold mbindM at 1. rewrite Hm. unfold lift at 1. cbn [Field_Bytes].
  rewrite Hnil. unfold mbindM at 1. unfold ret at 1.
  assert (Hw : Field_WriteTo (Some m)
                 (mkWriter (((l ++ sigType :: time) ++ keyId)
                            ++ [a; h; fst (HashTag sig); snd (HashTag sig)]) None)
               = (mkWriter (l ++ (sigType :: time) ++ keyId ++ [a; h] ++ tag ++ EncodedBytes m)
                    None, Ok tt)).
  { cbn [Field_WriteTo]. rewrite WriteTo_buffer. rewrite <- Htag.
    rewrite <- !app_assoc. reflexivity. }
  destruct Halgo as [Ha|Ha]; rewrite Hpa in Ha; injection Ha as ->; exact Hw.
Qed.

(** X7: a version-3 DSA signature that [parse] has read into a fresh
    [SignatureV3] cannot be written back: [Serialize] panics at
    [sig.RSASignature.Bytes()], the RSA field being the nil interface. *)
Theorem SignatureV3_parse_Serialize_DSA_panics
  (PublicKeyById : byte -> option PublicKeyAlgorithm)
  (r rest : reader) (sig0 sig : SignatureV3) (l : list byte) :
  RSASignature sig0 = None ->
  SignatureV3_parse PublicKeyById r sig0 = Ok (sig, rest) ->
  sig_PubKeyAlgo sig = Some PubKeyAlgoDSA ->
  snd (SignatureV3_Serialize sig (mkWriter l None))
  = Panic "invalid memory address or nil pointer dereference".
Proof.
  intros Hnil Hparse Halgo.
  destruct (SignatureV3_parse_inv _ _ _ _ _ Hparse)
    as (version & sigType & time & keyId & a & h & tag & value & algo & hash
        & -> & _ & Lt & Lk & Ltag & Ea & Eh & Hst & Hct & Hik & Hpa & Hsh & Htag & Hval).
  rewrite Hpa in Halgo. injection Halgo as ->.
  destruct Hval as (mr & ms & _ & _ & _ & Hrsa). rewrite Hnil in Hrsa.
  unfold SignatureV3_Serialize.
  unfold mbindM at 1. rewrite Write_buffer.
  unfold mbindM at 1. rewrite Write_buffer, Hpa.
  unfold mbindM at 1. unfold ret at 1.
  unfold mbindM at 1. rewrite Write_buffer.
  unfold mbindM at 1. rewrite Hrsa. reflexivity.
Qed.

(** X8: [parse] rejects a version byte other than 2 and 3, and after a good
    version byte a second byte other than 5, with an UnsupportedError that
    names the byte. *)
Theorem SignatureV3_parse_rejects_version_and_marker
  (PublicKeyById : byte -> option PublicKeyAlgorithm) (sig0 : SignatureV3)
  (version marker : byte) (rest : list byte) :
  (Z_of_byte version <> 2 -> Z_of_byte version <> 3 ->
     SignatureV3_parse PublicKeyById (version :: rest) sig0
     = Err (UnsupportedError
              (String.append "signature packet version " (Itoa (Z_of_byte version)))))
  /\ (Z_of_byte version = 2 \/ Z_of_byte version = 3 -> Z_of_byte marker <> 5 ->
      SignatureV3_parse PublicKeyById (version :: marker :: rest) sig0
      = Err (UnsupportedError
               (String.append "invalid hashed material length "
                  (Itoa (Z_of_byte marker))))).
Proof.
  pose proof (Z_of_byte_range version) as Hv.
  split.
  - intros H2 H3. unfold SignatureV3_parse.
    change (readFull (version :: rest) 1) with (Ok ([version], rest)).
    cbn [bind nth].
    destruct (Z.ltb_spec (Z_of_byte version) 2); [reflexivity|].
    destruct (Z.gtb_spec (Z_of_byte version) 3); [reflexivity|]. lia.
  - intros Hver Hm. unfold SignatureV3_parse.
    change (readFull (version :: marker :: rest) 1) with (Ok ([version], marker :: rest)).
    cbn [bind nth].
    destruct (Z.ltb_spec (Z_of_byte version) 2); [lia|].
    destruct (Z.gtb_spec (Z_of_byte version) 3); [lia|]. cbn [orb].
    change (readFull (marker :: rest) 1) with (Ok ([marker], rest)).
    cbn [bind nth].
    destruct (Z.eqb_spec (Z_of_byte marker) 5); [contradiction | reflexivity].
Qed.

Lemma SignatureV3_parse_rejects_version_and_marker_witness :
  SignatureV3_parse sample_PublicKeyById [x04; x05; x00] new_SignatureV3
  = Err (UnsupportedError "signature packet version 4")
  /\ SignatureV3_parse sample_PublicKeyById [x03; x06; x00] new_SignatureV3
     = Err (UnsupportedError "invalid hashed material length 6").
Proof.
  split.
  - apply (proj1 (SignatureV3_parse_rejects_version_and_marker
                    sample_PublicKeyById new_SignatureV3 x04 x00 [x05; x00]));
      vm_compute; discriminate.
  - apply (proj2 (SignatureV3_parse_rejects_version_and_marker
                    sample_PublicKeyById new_SignatureV3 x03 x06 [x00])).
    + right. reflexivity.
    + vm_compute. discriminate.
Defined.

Lemma sample_PublicKeyById_coherent (id : byte) (a : PublicKeyAlgorithm) :
  sample_PublicKeyById id = Some a -> PublicKeyAlgorithm_Id a = id.
Proof. destruct id; cbn; intros [= <-]; reflexivity. Qed.

Lemma SignatureV3_parse_Serialize_RSA_witness :
  let r := [x03; x05; x00; x4c; xc3; x49; xa8; x01; x02; x03; x04; x05; x06; x07; x08;
            x01; x02; xab; xcd; x00; x09; x01; xff] in
  exists sig,
    SignatureV3_parse sample_PublicKeyById r new_SignatureV3 = Ok (sig, [])
    /\ exists version body,
         r = version :: x05 :: body ++ []
         /\ SignatureV3_Serialize sig (mkWriter [] None)
            = (mkWriter ([] ++ body) None, Ok tt).
Proof.
  cbv zeta. eexists. split; [vm_compute; reflexivity|].
  apply (SignatureV3_parse_Serialize_RSA sample_PublicKeyById
           [x03; x05; x00; x4c; xc3; x49; xa8; x01; x02; x03; x04; x05; x06; x07; x08;
            x01; x02; xab; xcd; x00; x09; x01; xff] [] new_SignatureV3).
  - exact sample_PublicKeyById_coherent.
  - vm_compute. reflexivity.
  - left. reflexivity.
Defined.

Lemma SignatureV3_parse_Serialize_DSA_panics_witness :
  let r := [x03; x05; x00; x4c; xc3; x49; xa8; x01; x02; x03; x04; x05; x06; x07; x08;
            x11; x02; xab; xcd; x00; x01; x01; x00; x02; x03] in
  exists sig,
    SignatureV3_parse sample_PublicKeyById r new_SignatureV3 = Ok (sig, [])
    /\ snd (SignatureV3_Serialize sig (mkWriter [] None))
       = Panic "invalid memory address or nil pointer dereference".
Proof.
  cbv zeta. eexists. split; [vm_compute; reflexivity|].
  apply (SignatureV3_parse_Serialize_DSA_panics sample_PublicKeyById
           [x03; x05; x00; x4c; xc3; x49; xa8; x01; x02; x03; x04; x05; x06; x07; x08;
            x11; x02; xab; xcd; x00; x01; x01; x00; x02; x03] [] new_SignatureV3).
  - reflexivity.
  - vm_compute. reflexivity.
  - reflexivity.
Defined.

(** X9: a body shorter than the 19 bytes of the fixed part of a version-3
    signature never parses and never panics: [parse] returns an error. *)
Theorem SignatureV3_parse_short (PublicKeyById : byte -> option PublicKeyAlgorithm)
  (r : reader) (sig0 : SignatureV3) :
  (length r < 19)%nat ->
  exists e, SignatureV3_parse PublicKeyById r sig0 = Err e.
Proof.
  intros Hlen. unfold SignatureV3_parse.
  unfold readFull at 1.
  destruct (Nat.leb_spec 1 (length r)); [|eexists; reflexivity]. cbn [bind].
  destruct (_ || _); [eexists; reflexivity|].
  unfold readFull at 1. rewrite !length_drop.
  destruct (Nat.leb_spec 1 (length r - 1)); [|eexists; reflexivity]. cbn [bind].
  destruct (negb _); [eexists; reflexivity|].
  unfold readFull at 1. rewrite !length_drop.
  destruct (Nat.leb_spec 5 (length r - 1 - 1)); [|eexists; reflexivity]. cbn [bind].
  unfold readFull at 1. rewrite !length_drop.
  destruct (Nat.leb_spec 8 (length r - 1 - 1 - 5)); [|eexists; reflexivity]. cbn [bind].
  unfold readFull at 1. rewrite !length_drop.
  destruct (Nat.leb_spec 2 (length r - 1 - 1 - 5 - 8)); [|eexists; reflexivity]. cbn [bind].
  destruct (PublicKeyById _); [|eexists; reflexivity].
  destruct (HashById _); [|eexists; reflexivity].
  unfold readFull at 1. rewrite !length_drop.
  destruct (Nat.leb_spec 2 (length r - 1 - 1 - 5 - 8 - 2)); [lia|].
  eexists. reflexivity.
Qed.

Lemma SignatureV3_parse_short_witness :
  exists e, SignatureV3_parse sample_PublicKeyById
              [x03; x05; x00; x4c; xc3; x49; xa8] new_SignatureV3 = Err e.
Proof.
  apply SignatureV3_parse_short. cbn. lia.
Defined.

(** X10: a well-formed fixed part that names a registered public-key
    algorithm other than RSA, RSA sign-only and DSA, and a registered hash,
    makes [parse] panic instead of returning an error. *)
Theorem SignatureV3_parse_unreachable (PublicKeyById : byte -> option PublicKeyAlgorithm)
  (sig0 : SignatureV3) (version sigType a h : byte) (time keyId tag rest : list byte)
  (algo : PublicKeyAlgorithm) (hash : Hash) :
  Z_of_byte version = 2 \/ Z_of_byte version = 3 ->
  length time = 4%nat -> length keyId = 8%nat -> length tag = 2%nat ->
  PublicKeyById a = Some algo ->
  algo <> PubKeyAlgoRSA -> algo <> PubKeyAlgoRSASignOnly -> algo <> PubKeyAlgoDSA ->
  HashById h = Some hash ->
  SignatureV3_parse PublicKeyById
    (version :: x05 :: (sigType :: time) ++ keyId ++ [a; h] ++ tag ++ rest) sig0
  = Panic "unreachable".
Proof.
  intros Hver Lt Lk Ltag Ea H1 H2 H3 Eh.
  destruct time as [|t3 [|t2 [|t1 [|t0 [|? ?]]]]]; try discriminate.
  destruct keyId as [|k0 [|k1 [|k2 [|k3 [|k4 [|k5 [|k6 [|k7 [|? ?]]]]]]]]]; try discriminate.
  destruct tag as [|g0 [|g1 [|? ?]]]; try discriminate.
  unfold SignatureV3_parse.
  change (readFull (version :: ?x) 1) with (Ok ([version], x)). cbn [bind nth].
  destruct (Z.ltb_spec (Z_of_byte version) 2); [lia|].
  destruct (Z.gtb_spec (Z_of_byte version) 3); [lia|]. cbn [orb].
  cbn -[HashById Itoa String.append ReadFrom]. rewrite Ea, Eh.
  destruct algo; congruence.
Qed.

Lemma SignatureV3_parse_unreachable_witness :
  SignatureV3_parse sample_PublicKeyById
    (x03 :: x05 :: (x00 :: [x4c; xc3; x49; xa8]) ++ [x01; x02; x03; x04; x05; x06; x07; x08]
     ++ [x10; x02] ++ [xab; xcd] ++ [x00; x01; x01]) new_SignatureV3
  = Panic "unreachable".
Proof.
  apply (SignatureV3_parse_unreachable sample_PublicKeyById new_SignatureV3
           x03 x00 x10 x02 _ _ _ _ PubKeyAlgoElGamal SHA1);
    try reflexivity; try discriminate.
  right. reflexivity.
Defined.

(** X11: after a well-formed start, an algorithm identifier that the
    registry does not know is an UnsupportedError that names it; a hash
    identifier that the hash registry does not know is an UnsupportedError
    whose message prints [buf[2]], which still holds the third byte of the
    issuer key identifier. *)
Theorem SignatureV3_parse_unknown_algorithm
  (PublicKeyById : byte -> option PublicKeyAlgorithm)
  (sig0 : SignatureV3) (version sigType a h : byte) (time keyId rest : list byte) :
  Z_of_byte version = 2 \/ Z_of_byte version = 3 ->
  length time = 4%nat -> length keyId = 8%nat ->
  (PublicKeyById a = None ->
     SignatureV3_parse PublicKeyById
       (version :: x05 :: (sigType :: time) ++ keyId ++ [a; h] ++ rest) sig0
     = Err (UnsupportedError (String.append "public key algorithm " (Itoa (Z_of_byte a)))))
  /\ (PublicKeyById a <> None -> HashById h = None ->
      SignatureV3_parse PublicKeyById
        (version :: x05 :: (sigType :: time) ++ keyId ++ [a; h] ++ rest) sig0
      = Err (UnsupportedError
               (String.append "hash function " (Itoa (Z_of_byte (nth 2 keyId x00)))))).
Proof.
  intros Hver Lt Lk.
  destruct time as [|t3 [|t2 [|t1 [|t0 [|? ?]]]]]; try discriminate.
  destruct keyId as [|k0 [|k1 [|k2 [|k3 [|k4 [|k5 [|k6 [|k7 [|? ?]]]]]]]]]; try discriminate.
  unfold SignatureV3_parse.
  change (readFull (version :: ?x) 1) with (Ok ([version], x)). cbn [bind nth].
  destruct (Z.ltb_spec (Z_of_byte version) 2); [lia|].
  destruct (Z.gtb_spec (Z_of_byte version) 3); [lia|]. cbn [orb].
  cbn -[HashById Itoa String.append ReadFrom].
  split.
  - intros ->. reflexivity.
  - intros Ha Hh. destruct (PublicKeyById a); [|congruence]. rewrite Hh. reflexivity.
Qed.

Lemma SignatureV3_parse_unknown_algorithm_witness :
  SignatureV3_parse sample_PublicKeyById
    (x03 :: x05 :: (x00 :: [x4c; xc3; x49; xa8]) ++ [x01; x02; x2a; x04; x05; x06; x07; x08]
     ++ [x01; x63] ++ [xab; xcd]) new_SignatureV3
  = Err (UnsupportedError "hash function 42").
Proof.
  apply (proj2 (SignatureV3_parse_unknown_algorithm sample_PublicKeyById new_SignatureV3
                  x03 x00 x01 x63 [x4c; xc3; x49; xa8]
                  [x01; x02; x2a; x04; x05; x06; x07; x08] [xab; xcd]
                  (or_intror eq_refl) eq_refl eq_refl)).
  - discriminate.
  - reflexivity.
Defined.

(** ** The additive checksum *)

Lemma mod64kHash_byte_sum (d : list byte) : mod64kHash d = byte_sum d mod 65536.
Proof. exact (additive_sum_byte_sum d). Qed.

Lemma byte_sum_app (a b : list byte) : byte_sum (a ++ b) = byte_sum a + byte_sum b.
Proof.
  induction a as [|x a IH]; [reflexivity|].
  cbn [app byte_sum fold_right]. fold (byte_sum (a ++ b)). fold (byte_sum a). lia.
Qed.

Lemma byte_sum_Permutation (a b : list byte) : a ≡ₚ b -> byte_sum a = byte_sum b.
Proof.
  induction 1 as [|x a b _ IH|x y a|a b c _ IH1 _ IH2]; cbn [byte_sum fold_right] in *.
  - reflexivity.
  - unfold byte_sum in IH. lia.
  - lia.
  - congruence.
Qed.

(** X12: [mod64kHash] is the sum of the bytes modulo 2^16, although it wraps
    at every addition: it is below 2^16, the hash of a concatenation is the
    sum of the hashes modulo 2^16, and it does not change when the bytes are
    reordered. *)
Theorem mod64kHash_sum (a b : list byte) :
  mod64kHash a = byte_sum a mod 65536
  /\ 0 <= mod64kHash a < 65536
  /\ mod64kHash (a ++ b) = (mod64kHash a + mod64kHash b) mod 65536
  /\ (a ≡ₚ b -> mod64kHash a = mod64kHash b).
Proof.
  split; [apply mod64kHash_byte_sum|].
  split; [rewrite mod64kHash_byte_sum; apply Z.mod_pos_bound; lia|].
  split.
  - rewrite !mod64kHash_byte_sum, byte_sum_app. apply Zplus_mod.
  - intros H. rewrite !mod64kHash_byte_sum, (byte_sum_Permutation a b H). reflexivity.
Qed.

Lemma mod64kHash_sum_witness :
  mod64kHash [x01; xff; x80] = mod64kHash [x80; x01; xff].
Proof.
  apply (proj2 (proj2 (proj2 (mod64kHash_sum [x01; xff; x80] [x80; x01; xff])))).
  symmetry. apply (Permutation_cons_append [x01; xff] x80).
Defined.

(** The two checksum bytes [Serialize] writes after the key material. *)
Lemma Serialize_trailer_matches (material : list byte) :
  trailer_matches false
    (material ++ [byte_of_Z (Z.shiftr (mod64kHash material) 8);
                  byte_of_Z (mod64kHash material)]).
Proof.
  unfold trailer_matches, trailer_size. rewrite length_app. cbn [length].
  replace (length material + 2 - 2)%nat with (length material) by lia.
  rewrite take_app_length, drop_app_length.
  rewrite <- mod64kHash_byte_sum. symmetry. apply prefix_of_uint16.
  rewrite mod64kHash_byte_sum. apply Z.mod_pos_bound. lia.
Qed.

(** X13: the trailer of [Serialize] is the trailer [Decrypt] accepts in the
    additive mode: when an encrypted packet without the SHA-1 flag decrypts
    to key-material bytes followed by the two checksum bytes [Serialize]
    computes for them, [Decrypt] strips the two bytes and returns what the
    key-material parse returns for the rest. *)
Theorem Decrypt_accepts_Serialize_trailer
  (pk : PrivateKey) (passphrase material : list byte) :
  Encrypted pk = true ->
  sha1Checksum pk = false ->
  decryptedData pk passphrase
  = Ok (material ++ [byte_of_Z (Z.shiftr (mod64kHash material) 8);
                     byte_of_Z (mod64kHash material)]) ->
  Decrypt passphrase pk = parsePrivateKey material pk.
Proof.
  intros HE Hsha Hd.
  destruct (Decrypt_integrity pk passphrase _ HE Hd) as (_ & _ & Hmatch).
  rewrite Hsha in Hmatch. cbn [trailer_size] in Hmatch.
  rewrite length_app in Hmatch. cbn [length] in Hmatch.
  replace (length material + 2 - 2)%nat with (length material) in Hmatch by lia.
  rewrite take_app_length in Hmatch.
  apply Hmatch; [lia | apply Serialize_trailer_matches].
Qed.

Lemma Decrypt_accepts_Serialize_trailer_witness :
  Decrypt Sample.testing Sample.encrypted_dsa_packet
  = parsePrivateKey [x00; x08; x80] Sample.encrypted_dsa_packet.
Proof.
  apply (Decrypt_accepts_Serialize_trailer Sample.encrypted_dsa_packet
           Sample.testing [x00; x08; x80]); [reflexivity | reflexivity |].
  vm_compute. reflexivity.
Defined.

(** ** Serialize *)

(** X14: when [Serialize] returns without an error, what it has added to the
    writer is the header for the private-key or (for a subkey) the
    private-subkey packet type, then the public-key portion, a zero byte, the
    key material and the two bytes of [mod64kHash] of the key material, most
    significant first; the length handed to the header is the number of
    bytes that follow it. *)
Theorem Serialize_layout (X : Collaborators) (pk : PrivateKey) (w w' : writer) :
  PrivateKey_Serialize X pk w = (w', Ok tt) ->
  exists public material,
    serializeWithoutHeaders X (PublicKey_of pk) = Ok public
    /\ written w'
       = written w
         ++ header X (if IsSubkey (PublicKey_of pk)
                      then packetTypePrivateSubkey else packetTypePrivateKey)
              (length (public ++ x00 :: material) + 2)
         ++ public ++ x00 :: material
         ++ [byte_of_Z (mod64kHash material / 256); byte_of_Z (mod64kHash material mod 256)]
    /\ PrivateKey_key pk <> NoPrivateKey.
Proof.
  unfold PrivateKey_Serialize.
  destruct (serializeWithoutHeaders X (PublicKey_of pk)) as [public| | |];
    try discriminate.
  cbv zeta.
  destruct (match PrivateKey_key pk with
            | NoPrivateKey => _ | RSAPrivateKey priv => _ | DSAPrivateKey priv => _
            | ElGamalPrivateKey priv => _ | ECDSAPrivateKey priv => _
            end) as [[material rm] [[]| | |]] eqn:Hkey; try discriminate.
  cbn [written]. unfold serializeHeader, mbindM.
  destruct (Write w _) as [w1 [[]| | |]] eqn:E1; try discriminate.
  destruct (Write w1 _) as [w2 [[]| | |]] eqn:E2; try discriminate.
  destruct (Write w2 _) as [w3 [[]| | |]] eqn:E3; try discriminate.
  intros E4. exists public, material.
  apply Write_ok in E1, E2, E3, E4.
  split; [reflexivity|]. split.
  - rewrite E4, E3, E2, E1. rewrite <- !app_assoc. cbn [app].
    rewrite Z.shiftr_div_pow2 by lia. change (2 ^ 8) with 256.
    replace (byte_of_Z (mod64kHash material mod 256)) with (byte_of_Z (mod64kHash material))
      by (apply Z_of_byte_inj; rewrite !Z_of_byte_of_Z, Z.mod_mod by lia; reflexivity).
    replace (length (public ++ [x00]) + length material + 2)%nat
      with (length (public ++ x00 :: material) + 2)%nat
      by (rewrite !length_app; cbn [length]; lia).
    reflexivity.
  - intros C. rewrite C in Hkey. discriminate.
Qed.

Lemma Serialize_layout_witness :
  exists public material,
    serializeWithoutHeaders Sample.collaborators (PublicKey_of Sample.rsa_packet) = Ok public
    /\ written (fst (PrivateKey_Serialize Sample.collaborators Sample.rsa_packet buffer))
       = written buffer
         ++ header Sample.collaborators packetTypePrivateKey
              (length (public ++ x00 :: material) + 2)
         ++ public ++ x00 :: material
         ++ [byte_of_Z (mod64kHash material / 256); byte_of_Z (mod64kHash material mod 256)]
    /\ PrivateKey_key Sample.rsa_packet <> NoPrivateKey.
Proof.
  assert (Hs : snd (PrivateKey_Serialize Sample.collaborators Sample.rsa_packet buffer)
               = Ok tt)
    by (vm_compute; reflexivity).
  apply (Serialize_layout Sample.collaborators Sample.rsa_packet buffer).
  rewrite <- Hs. apply surjective_pairing.
Defined.

(** ** parse, Decrypt and Serialize together *)

Lemma parsePrivateKey_ok (data : list byte) (pk pk' : PrivateKey) :
  parsePrivateKey data pk = (pk', Ok tt) ->
  exists k, pk' = install_key k pk /\ k <> NoPrivateKey.
Proof.
  unfold parsePrivateKey, parseRSAPrivateKey, parseDSAPrivateKey,
    parseElGamalPrivateKey, parseECDSAPrivateKey. unfold_M.
  repeat break_match; intros [= <-]; eexists; (split; [reflexivity | discriminate]).
Qed.

(** What a packet that [parse] returns as encrypted holds. *)
Lemma PrivateKey_parse_encrypted_inv (X : Collaborators) (r : reader) (pk0 pk : PrivateKey) :
  PrivateKey_parse X r pk0 = (pk, Ok tt) ->
  Encrypted pk = true ->
  exists c id r1 r2,
    CipherById X id = Some c
    /\ cipher pk = Some c
    /\ BlockSize c <> 0%nat
    /\ length (iv pk) = BlockSize c
    /\ s2k_Parse X r1 = (s2k pk, Ok r2)
    /\ PrivateKey_key pk = PrivateKey_key pk0
    /\ PublicKey_of pk = fst (PublicKey_parse X r (PublicKey_of pk0)).
Proof.
  unfold PrivateKey_parse. unfold_M.
  destruct (PublicKey_parse X r (PublicKey_of pk0)) as [pub [a| | |]]; try discriminate.
  destruct (readFull a 1) as [[l r0]| | |]; try discriminate.
  destruct (Z_of_byte (nth 0 l x00) =? 0).
  { intros H HE.
    apply (parsePrivateKey_ok r0
             (set_encryptedData r0
                (set_Encrypted false (set_s2k None (set_PublicKey pub pk0))))) in H
      as (k & -> & _).
    discriminate. }
  destruct (_ || _); [|discriminate].
  destruct (readFull r0 1) as [[buf r1]| | |]; try discriminate.
  destruct (CipherById X (nth 0 buf x00)) as [c|] eqn:Ec; [|discriminate].
  destruct (s2k_Parse X r1) as [f [r2| | |]] eqn:Es; try discriminate. cbn [fst snd].
  destruct (Z_of_byte (nth 0 l x00) =? 254); cbn;
    destruct (BlockSize c =? 0)%nat eqn:Eb; try discriminate;
    destruct (readFull r2 (BlockSize c)) as [[ivb r3]| | |]; try discriminate;
    cbn; intros [= <-] _; exists c, (nth 0 buf x00), r1, r2; cbn;
    repeat split;
    first [exact Ec | exact Es | apply Nat.eqb_neq; exact Eb | apply length_resize
          | reflexivity].
Qed.

(** X15: a packet that [parse] has read into a fresh [PrivateKey] as
    encrypted cannot be written by [Serialize]: once the public-key portion
    is serialized, it returns the InvalidArgumentError for an unknown key
    type and writes nothing. *)
Theorem Serialize_of_encrypted_packet (X : Collaborators) (r : reader) (subkey : bool)
  (pk : PrivateKey) (w : writer) (public : list byte) :
  PrivateKey_parse X r (new_PrivateKey subkey) = (pk, Ok tt) ->
  Encrypted pk = true ->
  serializeWithoutHeaders X (PublicKey_of pk) = Ok public ->
  PrivateKey_Serialize X pk w
  = (w, Err (InvalidArgumentError "unknown private key type")).
Proof.
  intros Hparse HE Hpub.
  destruct (PrivateKey_parse_encrypted_inv X r _ pk Hparse HE)
    as (c & id & r1 & r2 & _ & _ & _ & _ & _ & Hkey & _).
  cbn in Hkey. unfold PrivateKey_Serialize. rewrite Hpub, Hkey. reflexivity.
Qed.

Lemma Serialize_of_encrypted_packet_witness :
  let r := [x04; x4c; xc3; x49; xa8; x01; x00; x0c; x0c; xa1; x00; x05; x11]
           ++ [xfe; x64; x03; x00; x01; x02; x03; x04; x05; x06; x07; xaa; xbb] in
  PrivateKey_Serialize Sample.collaborators
    (fst (PrivateKey_parse Sample.collaborators r (new_PrivateKey false))) buffer
  = (buffer, Err (InvalidArgumentError "unknown private key type")).
Proof.
  cbv zeta.
  assert (Hs : snd (PrivateKey_parse Sample.collaborators
                 ([x04; x4c; xc3; x49; xa8; x01; x00; x0c; x0c; xa1; x00; x05; x11]
                  ++ [xfe; x64; x03; x00; x01; x02; x03; x04; x05; x06; x07; xaa; xbb])
                 (new_PrivateKey false)) = Ok tt)
    by (vm_compute; reflexivity).
  apply (Serialize_of_encrypted_packet Sample.collaborators
           ([x04; x4c; xc3; x49; xa8; x01; x00; x0c; x0c; xa1; x00; x05; x11]
            ++ [xfe; x64; x03; x00; x01; x02; x03; x04; x05; x06; x07; xaa; xbb])
           false _ buffer
           [x04; x4c; xc3; x49; xa8; x01; x00; x0c; x0c; xa1; x00; x05; x11]).
  - rewrite <- Hs. apply surjective_pairing.
  - vm_compute. reflexivity.
  - vm_compute. reflexivity.
Defined.

(** CFB decryption with a block size above zero finishes within the fuel
    [Decrypt] gives it and returns as many bytes as the blob has. *)
Lemma XORKeyStream_total (b : Block) :
  (0 < Block_BlockSize b)%nat ->
  forall (fuel : nat) (next src : list byte),
    (length src <= fuel)%nat ->
    exists data, XORKeyStream fuel b next src = Some data /\ length data = length src.
Proof.
  intros Hbs. induction fuel as [|fuel IH]; intros next src Hlen.
  - destruct src; [exists []; split; reflexivity | cbn in Hlen; lia].
  - destruct src as [|x src]; [exists []; split; reflexivity|].
    cbn [XORKeyStream].
    set (n := Nat.min (length (x :: src)) (Block_BlockSize b)).
    assert (Hn : (1 <= n <= length (x :: src))%nat) by (subst n; cbn [length]; lia).
    destruct (IH (take n (x :: src) ++ drop n next) (drop n (x :: src))) as (rest & -> & Hr).
    { rewrite length_drop. cbn [length] in *. lia. }
    eexists. split; [reflexivity|].
    rewrite length_app, Hr, length_drop. unfold xorBytes.
    rewrite length_zip_with, length_take, length_resize. fold n. lia.
Qed.

Lemma decryptedData_total (pk : PrivateKey) (c : Cipher) (f : s2k_func)
  (passphrase : list byte) :
  cipher pk = Some c -> s2k pk = Some f ->
  (forall key, Block_BlockSize (New c key) = BlockSize c) ->
  BlockSize c <> 0%nat ->
  length (iv pk) = BlockSize c ->
  exists data, decryptedData pk passphrase = Ok data
               /\ length data = length (encryptedData pk).
Proof.
  intros Hc Hf Hblock Hbs Hiv. unfold decryptedData, CFBDecrypt. rewrite Hc, Hf.
  rewrite Hblock, Hiv, Nat.eqb_refl. cbn [negb].
  destruct (XORKeyStream_total
              (New c (resize (KeySize c) x00 (f (KeySize c) passphrase)))
              ltac:(rewrite Hblock; lia)
              (length (encryptedData pk))
              (resize (BlockSize c) x00 (iv pk)) (encryptedData pk) (le_n _))
    as (data & -> & Hlen).
  exists data. split; [reflexivity | exact Hlen].
Qed.

(** X16: on a packet that [parse] returned as encrypted, the decryption step
    of [Decrypt] neither panics nor runs forever, whatever the passphrase:
    the IV has the block size, the block size is not zero, and the decrypted
    bytes are as many as the blob has.  The registry is assumed to hold
    ciphers whose blocks have the block size they announce, and the S2K
    parser to return a function when it succeeds. *)
Theorem Decrypt_of_parsed_packet_decrypts (X : Collaborators) (r : reader)
  (pk0 pk : PrivateKey) (passphrase : list byte) :
  (forall id c key, CipherById X id = Some c -> Block_BlockSize (New c key) = BlockSize c) ->
  (forall r1 r2, s2k_Parse X r1 <> (None, Ok r2)) ->
  PrivateKey_parse X r pk0 = (pk, Ok tt) ->
  Encrypted pk = true ->
  exists data, decryptedData pk passphrase = Ok data
               /\ length data = length (encryptedData pk).
Proof.
  intros Hreg Hs2k Hparse HE.
  destruct (PrivateKey_parse_encrypted_inv X r pk0 pk Hparse HE)
    as (c & id & r1 & r2 & Hid & Hc & Hbs & Hiv & Hs & _).
  destruct (s2k pk) as [f|] eqn:Hf; [|exfalso; exact (Hs2k _ _ Hs)].
  apply (decryptedData_total pk c f); try assumption.
  intros key. exact (Hreg id c key Hid).
Qed.

Lemma sample_registry_blocks (id : byte) (c : Cipher) (key : list byte) :
  CipherById Sample.collaborators id = Some c ->
  Block_BlockSize (New c key) = BlockSize c.
Proof.
  cbn. destruct (Byte.eqb id x64); [|discriminate]. intros [= <-]. reflexivity.
Qed.

Lemma sample_s2k_function (r1 r2 : reader) :
  s2k_Parse Sample.collaborators r1 <> (None, Ok r2).
Proof. cbn. unfold Sample.parse_s2k. destruct r1; discriminate. Qed.

Lemma Decrypt_of_parsed_packet_decrypts_witness :
  let r := [x04; x4c; xc3; x49; xa8; x01; x00; x0c; x0c; xa1; x00; x05; x11]
           ++ [xfe; x64; x03; x00; x01; x02; x03; x04; x05; x06; x07; xaa; xbb] in
  let pk := fst (PrivateKey_parse Sample.collaborators r (new_PrivateKey false)) in
  exists data, decryptedData pk Sample.testing = Ok data
               /\ length data = length (encryptedData pk).
Proof.
  cbv zeta.
  assert (Hs : snd (PrivateKey_parse Sample.collaborators
                 ([x04; x4c; xc3; x49; xa8; x01; x00; x0c; x0c; xa1; x00; x05; x11]
                  ++ [xfe; x64; x03; x00; x01; x02; x03; x04; x05; x06; x07; xaa; xbb])
                 (new_PrivateKey false)) = Ok tt)
    by (vm_compute; reflexivity).
  apply (Decrypt_of_parsed_packet_decrypts Sample.collaborators
           ([x04; x4c; xc3; x49; xa8; x01; x00; x0c; x0c; xa1; x00; x05; x11]
            ++ [xfe; x64; x03; x00; x01; x02; x03; x04; x05; x06; x07; xaa; xbb])
           (new_PrivateKey false)).
  - exact sample_registry_blocks.
  - exact sample_s2k_function.
  - rewrite <- Hs. apply surjective_pairing.
  - vm_compute. reflexivity.
Defined.



(** X18: a [Decrypt] that succeeds on an encrypted packet clears the
    [Encrypted] flag and the blob and installs key material; the public key
    (with its creation time), the cipher, the S2K function, the IV and the
    checksum flag stay as they were. *)
Theorem Decrypt_success_state (pk pk' : PrivateKey) (passphrase : list byte) :
  Encrypted pk = true ->
  Decrypt passphrase pk = (pk', Ok tt) ->
  Encrypted pk' = false
  /\ encryptedData pk' = []
  /\ PrivateKey_key pk' <> NoPrivateKey
  /\ PublicKey_of pk' = PublicKey_of pk
  /\ cipher pk' = cipher pk /\ s2k pk' = s2k pk
  /\ iv pk' = iv pk /\ sha1Checksum pk' = sha1Checksum pk.
Proof.
  intros HE. rewrite Decrypt_unfold by exact HE.
  destruct (decryptedData pk passphrase) as [data| | |]; try discriminate.
  assert (G : forall d, parsePrivateKey d pk = (pk', Ok tt) ->
              Encrypted pk' = false /\ encryptedData pk' = []
              /\ PrivateKey_key pk' <> NoPrivateKey
              /\ PublicKey_of pk' = PublicKey_of pk
              /\ cipher pk' = cipher pk /\ s2k pk' = s2k pk
              /\ iv pk' = iv pk /\ sha1Checksum pk' = sha1Checksum pk).
  { intros d H. apply parsePrivateKey_ok in H as (k & -> & Hk).
    repeat split; try reflexivity. exact Hk. }
  repeat (break_match; try discriminate); apply G.
Qed.

Lemma Decrypt_success_state_witness :
  let pk' := fst (Decrypt Sample.testing Sample.encrypted_dsa_packet) in
  Encrypted pk' = false
  /\ encryptedData pk' = []
  /\ PrivateKey_key pk' <> NoPrivateKey
  /\ PublicKey_of pk' = PublicKey_of Sample.encrypted_dsa_packet
  /\ cipher pk' = cipher Sample.encrypted_dsa_packet
  /\ s2k pk' = s2k Sample.encrypted_dsa_packet
  /\ iv pk' = iv Sample.encrypted_dsa_packet
  /\ sha1Checksum pk' = sha1Checksum Sample.encrypted_dsa_packet.
Proof.
  cbv zeta.
  assert (Hs : snd (Decrypt Sample.testing Sample.encrypted_dsa_packet) = Ok tt)
    by (vm_compute; reflexivity).
  apply (Decrypt_success_state Sample.encrypted_dsa_packet _ Sample.testing eq_refl).
  rewrite <- Hs. apply surjective_pairing.
Defined.

(** X19: once [Decrypt] has succeeded, every later [Decrypt], with any
    passphrase, succeeds and changes nothing. *)
Theorem Decrypt_after_success (pk pk' : PrivateKey) (p1 p2 : list byte) :
  Decrypt p1 pk = (pk', Ok tt) ->
  Decrypt p2 pk' = (pk', Ok tt).
Proof.
  intros H.
  assert (HE' : Encrypted pk' = false).
  { destruct (Encrypted pk) eqn:HE.
    - rewrite Decrypt_unfold in H by exact HE.
      destruct (decryptedData pk p1) as [data| | |]; try discriminate.
      revert H. repeat (break_match; try discriminate);
        intros H; apply parsePrivateKey_ok in H as (k & -> & _); reflexivity.
    - revert H. unfold Decrypt. unfold_M. rewrite HE. cbn. intros [= <-]. exact HE. }
  unfold Decrypt. unfold_M. rewrite HE'. reflexivity.
Qed.

Lemma Decrypt_after_success_witness :
  Decrypt Sample.wrong (fst (Decrypt Sample.testing Sample.encrypted_dsa_packet))
  = (fst (Decrypt Sample.testing Sample.encrypted_dsa_packet), Ok tt).
Proof.
  assert (Hs : snd (Decrypt Sample.testing Sample.encrypted_dsa_packet) = Ok tt)
    by (vm_compute; reflexivity).
  apply (Decrypt_after_success Sample.encrypted_dsa_packet _ Sample.testing Sample.wrong).
  rewrite <- Hs. apply surjective_pairing.
Defined.

Lemma Decrypt_failure_keeps (pk pk' : PrivateKey) (passphrase : list byte) (o : status) :
  Decrypt passphrase pk = (pk', o) -> o = Ok tt \/ pk' = pk.
Proof.
  destruct (Encrypted pk) eqn:HE.
  - rewrite Decrypt_unfold by exact HE.
    destruct (decryptedData pk passphrase) as [data| | |];
      try (intros [= <- <-]; right; reflexivity).
    repeat (break_match; try (intros [= <- <-]; right; reflexivity));
      apply parsePrivateKey_keeps_on_failure.
  - unfold Decrypt. unfold_M. rewrite HE. cbn. intros [= <- <-]. left. reflexivity.
Qed.

(** X20: a [Decrypt] that fails does not get in the way of the next one: a
    caller that tries a passphrase, gets an error and tries a second
    passphrase gets what the second passphrase gives on the packet as it was
    at the start. *)
Theorem Decrypt_retry (pk pk1 : PrivateKey) (p1 p2 : list byte) (e : error) :
  Decrypt p1 pk = (pk1, Err e) ->
  Decrypt_calls [p1; p2] pk = (fst (Decrypt p2 pk), [Err e; snd (Decrypt p2 pk)]).
Proof.
  intros H. cbn [Decrypt_calls]. rewrite H.
  apply Decrypt_failure_keeps in H as [H | ->]; [discriminate|].
  destruct (Decrypt p2 pk) as [pk2 res]. reflexivity.
Qed.

Lemma Decrypt_retry_witness :
  Decrypt_calls [Sample.wrong; Sample.testing] Sample.encrypted_dsa_packet
  = (fst (Decrypt Sample.testing Sample.encrypted_dsa_packet),
     [Err (StructuralError "private key checksum failure");
      snd (Decrypt Sample.testing Sample.encrypted_dsa_packet)]).
Proof.
  exact (Decrypt_retry _ _ _ _ _ sample_wrong_passphrase).
Defined.

(** ** Errors and panics of parse *)

(** X21: a private-key body that ends too early is an unexpected-EOF error:
    right after the public-key portion, after a usage byte 254 or 255 with no
    cipher byte, and when fewer bytes than the block size are left for the
    IV; in the last case the IV field holds the bytes there were, padded
    with zeros. *)
Theorem PrivateKey_parse_truncated (X : Collaborators) (r : reader) (pk0 : PrivateKey)
  (pub : PublicKey) :
  (PublicKey_parse X r (PublicKey_of pk0) = (pub, Ok []) ->
     PrivateKey_parse X r pk0 = (set_PublicKey pub pk0, Err ErrUnexpectedEOF))
  /\ (forall usage,
        PublicKey_parse X r (PublicKey_of pk0) = (pub, Ok [usage]) ->
        Z_of_byte usage = 254 \/ Z_of_byte usage = 255 ->
        PrivateKey_parse X r pk0 = (set_PublicKey pub pk0, Err ErrUnexpectedEOF))
  /\ (forall usage id rest c f rest2,
        PublicKey_parse X r (PublicKey_of pk0) = (pub, Ok (usage :: id :: rest)) ->
        Z_of_byte usage = 254 \/ Z_of_byte usage = 255 ->
        CipherById X id = Some c ->
        s2k_Parse X rest = (f, Ok rest2) ->
        (length rest2 < BlockSize c)%nat ->
        exists pk',
          PrivateKey_parse X r pk0 = (pk', Err ErrUnexpectedEOF)
          /\ iv pk' = rest2 ++ replicate (BlockSize c - length rest2) x00).
Proof.
  split; [|split].
  - intros Hpub. unfold PrivateKey_parse. unfold mbindM at 1. rewrite Hpub. reflexivity.
  - intros usage Hpub Hu. unfold PrivateKey_parse. unfold mbindM at 1. rewrite Hpub.
    unfold_M. cbn.
    assert (Hz : (Z_of_byte usage =? 0) = false) by (apply Z.eqb_neq; lia).
    assert (He : ((Z_of_byte usage =? 254) || (Z_of_byte usage =? 255)) = true)
      by (apply orb_true_iff; rewrite !Z.eqb_eq; exact Hu).
    rewrite Hz, He. reflexivity.
  - intros usage id rest c f rest2 Hpub Hu Hc Hs Hlen.
    assert (Hz : (Z_of_byte usage =? 0) = false) by (apply Z.eqb_neq; lia).
    assert (He : ((Z_of_byte usage =? 254) || (Z_of_byte usage =? 255)) = true)
      by (apply orb_true_iff; rewrite !Z.eqb_eq; exact Hu).
    assert (Hb : (BlockSize c =? 0)%nat = false) by (apply Nat.eqb_neq; lia).
    assert (Hr : readFull rest2 (BlockSize c) = Err ErrUnexpectedEOF)
      by (apply readFull_short; exact Hlen).
    assert (Hiv : resize (BlockSize c) x00 rest2
                  = rest2 ++ replicate (BlockSize c - length rest2) x00)
      by (apply resize_ge; lia).
    destruct (Z_of_byte usage =? 254) eqn:E254; eexists;
      (split;
       [unfold PrivateKey_parse; unfold mbindM at 1; rewrite Hpub;
        unfold_M; cbn; rewrite Hz, E254, He; cbn; rewrite Hc, drop_0, Hs; cbn;
        rewrite ?E254; cbn; rewrite Hb; cbn; rewrite Hr, Hiv; cbn; reflexivity
       | reflexivity]).
Qed.

Lemma PrivateKey_parse_truncated_witness :
  let r := [x04; x4c; xc3; x49; xa8; x01; x00; x0c; x0c; xa1; x00; x05; x11]
           ++ [xfe; x64; x03; x0a; x0b] in
  exists pk',
    PrivateKey_parse Sample.collaborators r (new_PrivateKey false)
    = (pk', Err ErrUnexpectedEOF)
    /\ iv pk' = [x0a; x0b] ++ replicate (8 - 2) x00.
Proof.
  cbv zeta.
  apply (proj2 (proj2 (PrivateKey_parse_truncated Sample.collaborators
           ([x04; x4c; xc3; x49; xa8; x01; x00; x0c; x0c; xa1; x00; x05; x11]
            ++ [xfe; x64; x03; x0a; x0b])
           (new_PrivateKey false)
           (mkPublicKey 1287866792 PubKeyAlgoRSA
              (RSAPublicKey (mk_rsa_PublicKey 3233 17)) false)))
           xfe x64 [x03; x0a; x0b] Sample.xor_Cipher (Some Sample.pad_s2k) [x0a; x0b]).
  - reflexivity.
  - left. reflexivity.
  - reflexivity.
  - reflexivity.
  - cbn. lia.
Defined.

(** X22: an unencrypted packet whose public-key algorithm is not RSA (any of
    the three), DSA, ElGamal or ECDSA (ECDH, for one) makes [parse] panic
    instead of returning an error. *)
Theorem PrivateKey_parse_unsupported_algorithm_panics (X : Collaborators) (r : reader)
  (pk0 : PrivateKey) (pub : PublicKey) (rest : list byte) :
  PublicKey_parse X r (PublicKey_of pk0) = (pub, Ok (x00 :: rest)) ->
  PubKeyAlgo pub = PubKeyAlgoECDH \/ (exists id, PubKeyAlgo pub = PubKeyAlgoOther id) ->
  snd (PrivateKey_parse X r pk0) = Panic "impossible".
Proof.
  intros Hpub Halgo.
  rewrite (PrivateKey_parse_unencrypted X r pk0 pub rest Hpub).
  unfold parsePrivateKey. unfold mbindM at 1. unfold get at 1.
  change (PublicKey_of (set_encryptedData rest
            (set_Encrypted false (set_s2k None (set_PublicKey pub pk0))))) with pub.
  destruct Halgo as [-> | [id ->]]; reflexivity.
Qed.

Lemma PrivateKey_parse_unsupported_algorithm_panics_witness :
  snd (PrivateKey_parse
         (mkCollaborators
            (fun r pub => (mkPublicKey 0 PubKeyAlgoECDH NoPublicKey false, Ok (drop 6 r)))
            (serializeWithoutHeaders Sample.collaborators)
            (CipherById Sample.collaborators) (s2k_Parse Sample.collaborators)
            (header Sample.collaborators))
         [x04; x4c; xc3; x49; xa8; x12; x00; x00; x01; x01] (new_PrivateKey false))
  = Panic "impossible".
Proof.
  apply (PrivateKey_parse_unsupported_algorithm_panics _ _ _
           (mkPublicKey 0 PubKeyAlgoECDH NoPublicKey false) [x00; x01; x01]).
  - reflexivity.
  - left. reflexivity.
Defined.


Lemma ReadFrom_short (r : reader) :
  (length r < 2)%nat -> ReadFrom r = Err ErrUnexpectedEOF.
Proof. intros H. unfold ReadFrom. rewrite readFull_short by exact H. reflexivity. Qed.

(** X23: key material of fewer than two bytes (none at all, for one) is an
    unexpected-EOF error of the key-material parse for every supported
    algorithm, and the packet stays as it was. *)
Theorem parsePrivateKey_short (pk : PrivateKey) (data : list byte) :
  consistent_PublicKey (PublicKey_of pk) ->
  (length data < 2)%nat ->
  parsePrivateKey data pk = (pk, Err ErrUnexpectedEOF).
Proof.
  intros Hc Hlen. unfold consistent_PublicKey in Hc.
  unfold parsePrivateKey, parseRSAPrivateKey, parseDSAPrivateKey,
    parseElGamalPrivateKey, parseECDSAPrivateKey. unfold_M.
  rewrite (ReadFrom_short data Hlen).
  destruct (PubKeyAlgo (PublicKey_of pk)); try contradiction;
    destruct (PublicKey_key (PublicKey_of pk)); try contradiction; reflexivity.
Qed.

Lemma parsePrivateKey_short_witness :
  parsePrivateKey [] Sample.encrypted_dsa_packet
  = (Sample.encrypted_dsa_packet, Err ErrUnexpectedEOF).
Proof.
  apply parsePrivateKey_short; [exact I | cbn; lia].
Defined.

(** ** RSA key material *)

Lemma Validate_cases (pub : rsa_PublicKey) (d p q : Z) (pc : option PrecomputedValues) :
  Validate (mk_rsa_PrivateKey pub d [p; q] pc) = Ok tt
  \/ exists e, Validate (mk_rsa_PrivateKey pub d [p; q] pc) = Err (ErrRSA e).
Proof.
  unfold Validate, checkPub.
  cbn [rsa_PublicKey_of Primes rsa_D multiply_primes check_exponents].
  destruct (rsa_E pub <? 2); [right; eexists; reflexivity|].
  destruct (rsa_E pub >? 2147483647); [right; eexists; reflexivity|].
  cbn [bind nil_error].
  destruct (Z.leb_spec p 1); [right; eexists; reflexivity|].
  destruct (Z.leb_spec q 1); [right; eexists; reflexivity|]. cbn [bind].
  destruct (negb _); [right; eexists; reflexivity|].
  unfold big_Mod.
  destruct (Z.eqb_spec (p - 1) 0); [lia|]. cbn [bind].
  destruct (_ =? 1); [|right; eexists; reflexivity].
  destruct (Z.eqb_spec (q - 1) 0); [lia|]. cbn [bind].
  destruct (_ =? 1); [left; reflexivity | right; eexists; reflexivity].
Qed.

Lemma checkPub_ok (pub : rsa_PublicKey) :
  checkPub pub = Ok tt <-> 2 <= rsa_E pub <= 2147483647.
Proof.
  unfold checkPub.
  destruct (Z.ltb_spec (rsa_E pub) 2); [split; [discriminate | lia]|].
  destruct (Z.gtb_spec (rsa_E pub) 2147483647); [split; [discriminate | lia]|].
  split; [lia | reflexivity].
Qed.

(** X24: when the three big integers of RSA key material can be read, the
    parse accepts them exactly when the key is consistent: a public exponent
    between 2 and 2^31 - 1, both primes above 1, their product equal to the
    modulus of the public key, and [d*e = 1] modulo each prime minus one.
    Then it installs the exponent, the first integer read in [Primes[0]], the
    second in [Primes[1]], and the CRT values, and marks the packet
    decrypted; otherwise it returns an error of [Validate] and leaves the
    packet alone.  The CRT coefficient it installs is the inverse of the
    second prime modulo the first when the two are relatively prime;
    [Validate] does not ask for that, and when they are not the coefficient
    is [nil]. *)
Theorem parseRSAPrivateKey_accepts_valid_keys
  (pk : PrivateKey) (rsaPub : rsa_PublicKey) (data r1 r2 r3 : list byte) (d p q : MPI) :
  PublicKey_key (PublicKey_of pk) = RSAPublicKey rsaPub ->
  ReadFrom data = Ok (d, r1) ->
  ReadFrom r1 = Ok (p, r2) ->
  ReadFrom r2 = Ok (q, r3) ->
  let D := big_SetBytes (Bytes d) in
  let P := big_SetBytes (Bytes p) in
  let Q := big_SetBytes (Bytes q) in
  let valid := 2 <= rsa_E rsaPub <= 2147483647 /\ 1 < P /\ 1 < Q /\ P * Q = rsa_N rsaPub
               /\ (rsa_E rsaPub * D) mod (P - 1) = 1
               /\ (rsa_E rsaPub * D) mod (Q - 1) = 1 in
  (valid ->
     parseRSAPrivateKey data pk
     = (mkPrivateKey (PublicKey_of pk) false [] (cipher pk) (s2k pk)
          (RSAPrivateKey
             (mk_rsa_PrivateKey rsaPub D [P; Q]
                (Some (mkPrecomputed (D mod (P - 1)) (D mod (Q - 1)) (ModInverse Q P)))))
          (sha1Checksum pk) (iv pk),
        Ok tt))
  /\ (~ valid -> exists e, parseRSAPrivateKey data pk = (pk, Err (ErrRSA e)))
  /\ (valid ->
      (Z.gcd Q P = 1 ->
         exists x, ModInverse Q P = Some x /\ 0 <= x < P /\ (Q * x) mod P = 1)
      /\ (Z.gcd Q P <> 1 -> ModInverse Q P = None)).
Proof.
  intros Hpub Hd Hp Hq D P Q valid.
  pose proof (Validate_two_primes rsaPub D P Q None) as Hiff.
  rewrite checkPub_ok in Hiff. fold valid in Hiff.
  split; [|split]; [| |intros (_ & HP & HQ & _); apply ModInverse_spec; lia].
  - intros Hv. pose proof Hv as (_ & HP & HQ & _).
    unfold parseRSAPrivateKey. unfold_M. rewrite Hpub, Hd, Hp, Hq.
    fold D P Q. rewrite (proj2 Hiff Hv), Precompute_two_primes by assumption.
    reflexivity.
  - intros Hnv.
    destruct (Validate_cases rsaPub D P Q None) as [Hok|[e He]];
      [exfalso; apply Hnv, Hiff; exact Hok|].
    exists e. unfold parseRSAPrivateKey. unfold_M. rewrite Hpub, Hd, Hp, Hq.
    fold D P Q. rewrite He. reflexivity.
Qed.

Lemma parseRSAPrivateKey_accepts_valid_keys_witness :
  parseRSAPrivateKey [x00; x0c; x0a; xc1; x00; x06; x35; x00; x06; x3d] Sample.rsa_packet
  = (mkPrivateKey (PublicKey_of Sample.rsa_packet) false [] None None
       (RSAPrivateKey
          (mk_rsa_PrivateKey (mk_rsa_PublicKey 3233 17) 2753 [53; 61]
             (Some (mkPrecomputed (2753 mod (53 - 1)) (2753 mod (61 - 1))
                      (ModInverse 61 53)))))
       false [],
     Ok tt).
Proof.
  refine (proj1 (parseRSAPrivateKey_accepts_valid_keys Sample.rsa_packet
            (mk_rsa_PublicKey 3233 17)
            [x00; x0c; x0a; xc1; x00; x06; x35; x00; x06; x3d]
            [x00; x06; x35; x00; x06; x3d] [x00; x06; x3d] []
            (mkMPI (Some [x0a; xc1]) 12) (mkMPI (Some [x35]) 6) (mkMPI (Some [x3d]) 6)
            eq_refl _ _ _) _).
  - vm_compute. reflexivity.
  - vm_compute. reflexivity.
  - vm_compute. reflexivity.
  - vm_compute. repeat split; discriminate.
Defined.

(** ** No panic on consistent packets *)




(** ** RSA keys through serializeRSAPrivateKey and parseRSAPrivateKey *)

(** X26: writing an RSA key with [serializeRSAPrivateKey] and reading it
    with [parseRSAPrivateKey] exchanges the two primes and recomputes the CRT
    values.  When the two primes are relatively prime, doing it a second
    time puts them back: after two round trips the key has its exponent, its
    primes in their first slots, and the CRT values [Precompute] gives
    them.  When they are not, which [Validate] lets pass, the key that
    comes back has a [nil] CRT coefficient and writing it again panics. *)
Theorem RSA_two_round_trips (pk : PrivateKey) (pub : rsa_PublicKey)
  (d p q dp dq qinv : Z) :
  PublicKey_key (PublicKey_of pk) = RSAPublicKey pub ->
  0 <= d -> BitLen d < 65536 -> BitLen p < 65536 -> BitLen q < 65536 ->
  Validate (mk_rsa_PrivateKey pub d [p; q] (Some (mkPrecomputed dp dq (Some qinv)))) = Ok tt ->
  let once c := mk_rsa_PrivateKey pub d [q; p]
                  (Some (mkPrecomputed (d mod (q - 1)) (d mod (p - 1)) c)) in
  let twice c := mk_rsa_PrivateKey pub d [p; q]
                   (Some (mkPrecomputed (d mod (p - 1)) (d mod (q - 1)) c)) in
  parseRSAPrivateKey
    (written (fst (serializeRSAPrivateKey
                     (mk_rsa_PrivateKey pub d [p; q] (Some (mkPrecomputed dp dq (Some qinv))))
                     buffer)))
    pk
  = (install_key (RSAPrivateKey (once (ModInverse p q))) pk, Ok tt)
  /\ (Z.gcd p q = 1 ->
      exists x y,
        ModInverse p q = Some x /\ ModInverse q p = Some y
        /\ (p * x) mod q = 1 /\ (q * y) mod p = 1
        /\ snd (serializeRSAPrivateKey (once (Some x)) buffer) = Ok tt
        /\ parseRSAPrivateKey
             (written (fst (serializeRSAPrivateKey (once (Some x)) buffer))) pk
           = (install_key (RSAPrivateKey (twice (Some y))) pk, Ok tt))
  /\ (Z.gcd p q <> 1 ->
      ModInverse p q = None
      /\ snd (serializeRSAPrivateKey (once None) buffer)
         = Panic "invalid memory address or nil pointer dereference").
Proof.
  intros Hpub Hd Hbd Hbp Hbq Hval once twice.
  pose proof (proj1 (Validate_two_primes pub d p q _) Hval) as (Hc & Hp & Hq & HN & H1 & H2).
  destruct (ModInverse_spec p q Hq) as [Hpq Hpq'].
  destruct (ModInverse_spec q p Hp) as [Hqp _].
  split; [|split].
  - rewrite serializeRSAPrivateKey_buffer. cbn [fst written].
    rewrite <- (app_nil_r (EncodedBytes (SetBig qinv))).
    eapply parseRSAPrivateKey_serialized; eassumption.
  - intros Hgcd.
    destruct (Hpq Hgcd) as (x & Hx & _ & Hxi).
    destruct (Hqp ltac:(rewrite Z.gcd_comm; exact Hgcd)) as (y & Hy & _ & Hyi).
    exists x, y. split; [exact Hx|]. split; [exact Hy|].
    split; [exact Hxi|]. split; [exact Hyi|].
    unfold once. rewrite serializeRSAPrivateKey_buffer. cbn [fst snd written].
    split; [reflexivity|].
    rewrite <- (app_nil_r (EncodedBytes (SetBig x))). unfold twice. rewrite <- Hy.
    apply parseRSAPrivateKey_serialized with (pc := None); try assumption.
    apply Validate_two_primes. repeat split; try assumption. lia.
  - intros Hgcd. split; [apply Hpq'; exact Hgcd|].
    unfold once. rewrite (serializeRSAPrivateKey_written pub d q p [] _ _ None).
    reflexivity.
Qed.

Lemma RSA_two_round_trips_witness :
  parseRSAPrivateKey
    (written (fst (serializeRSAPrivateKey
                     (mk_rsa_PrivateKey (mk_rsa_PublicKey 3233 17) 2753 [53; 61]
                        (Some (mkPrecomputed 49 53 (Some 20)))) buffer)))
    Sample.rsa_packet
  = (install_key
       (RSAPrivateKey
          (mk_rsa_PrivateKey (mk_rsa_PublicKey 3233 17) 2753 [61; 53]
             (Some (mkPrecomputed 53 49 (Some 38)))))
       Sample.rsa_packet,
     Ok tt).
Proof.
  destruct (RSA_two_round_trips Sample.rsa_packet (mk_rsa_PublicKey 3233 17)
              2753 61 53 53 49 38 eq_refl) as (_ & H & _).
  - lia.
  - vm_compute. reflexivity.
  - vm_compute. reflexivity.
  - vm_compute. reflexivity.
  - vm_compute. reflexivity.
  - destruct (H eq_refl) as (x & y & Hx & Hy & _ & _ & _ & Hparse).
    vm_compute in Hx. vm_compute in Hy.
    injection Hx as <-. injection Hy as <-. exact Hparse.
Defined.

(** X27: an RSA key with three primes does not survive the round trip:
    [serializeRSAPrivateKey] writes its first two primes only, and
    [parseRSAPrivateKey] rejects what was written, because the product of
    the two primes is not the modulus. *)
Theorem RSA_three_primes_rejected (pk : PrivateKey) (pub : rsa_PublicKey) (d p q r : Z)
  (pc : PrecomputedValues) :
  PublicKey_key (PublicKey_of pk) = RSAPublicKey pub ->
  0 <= d -> BitLen d < 65536 -> BitLen p < 65536 -> BitLen q < 65536 ->
  Validate (mk_rsa_PrivateKey pub d [p; q; r] (Some pc)) = Ok tt ->
  parseRSAPrivateKey
    (written (fst (serializeRSAPrivateKey
                     (mk_rsa_PrivateKey pub d [p; q; r] (Some pc)) buffer))) pk
  = (pk, Err (ErrRSA errInvalidModulus)).
Proof.
  intros Hpub Hd Hbd Hbp Hbq Hval.
  assert (Hfacts : checkPub pub = Ok tt /\ 1 < p /\ 1 < q /\ 1 < r /\ p * q * r = rsa_N pub).
  { revert Hval. unfold Validate.
    cbn [rsa_PublicKey_of Primes rsa_D multiply_primes].
    destruct (checkPub pub) as [[]| | |]; cbn [bind]; try discriminate.
    destruct (Z.leb_spec p 1); cbn [bind]; try discriminate.
    destruct (Z.leb_spec q 1); cbn [bind]; try discriminate.
    destruct (Z.leb_spec r 1); cbn [bind]; try discriminate.
    destruct (Z.eqb_spec (1 * p * q * r) (rsa_N pub)); cbn [negb]; try discriminate.
    intros _. repeat split; try assumption. lia. }
  destruct Hfacts as (Hc & Hp & Hq & Hr & HN).
  assert (Hparse : forall rest,
             parseRSAPrivateKey
               (EncodedBytes (SetBig d) ++ EncodedBytes (SetBig q)
                ++ EncodedBytes (SetBig p) ++ rest) pk
             = (pk, Err (ErrRSA errInvalidModulus))).
  { intros rest. unfold parseRSAPrivateKey. unfold_M. rewrite Hpub.
    rewrite ReadFrom_EncodedBytes by assumption.
    rewrite ReadFrom_EncodedBytes by (try assumption; lia).
    rewrite ReadFrom_EncodedBytes by (try assumption; lia).
    cbn [Bytes mpi_bytes]. rewrite !big_SetBytes_big_Bytes by lia.
    unfold Validate. cbn [rsa_PublicKey_of Primes rsa_D multiply_primes].
    rewrite Hc. cbn [bind].
    destruct (Z.leb_spec q 1); [lia|]. destruct (Z.leb_spec p 1); [lia|]. cbn [bind].
    destruct (Z.eqb_spec (1 * q * p) (rsa_N pub)) as [C|_]; [nia | reflexivity]. }
  destruct pc as [dp dq [x|]]; rewrite serializeRSAPrivateKey_written; cbn [fst written].
  - apply Hparse.
  - rewrite <- (app_nil_r (EncodedBytes (SetBig p))). apply Hparse.
Qed.

Lemma RSA_three_primes_rejected_witness :
  parseRSAPrivateKey
    (written (fst (serializeRSAPrivateKey
                     (mk_rsa_PrivateKey (mk_rsa_PublicKey 105 5) 5 [3; 5; 7]
                        (Some (mkPrecomputed 1 1 (Some 2)))) buffer)))
    (mkPrivateKey (mkPublicKey 0 PubKeyAlgoRSA (RSAPublicKey (mk_rsa_PublicKey 105 5)) false)
       false [] None None NoPrivateKey false [])
  = (mkPrivateKey (mkPublicKey 0 PubKeyAlgoRSA (RSAPublicKey (mk_rsa_PublicKey 105 5)) false)
       false [] None None NoPrivateKey false [],
     Err (ErrRSA errInvalidModulus)).
Proof.
  apply RSA_three_primes_rejected; try reflexivity; try lia.
Defined.
